(** * State-group storage of synapse: a shallow embedding

    This development embeds [synapse/storage/data_stores/main/state.py]
    (classes [StateGroupWorkerStore] and [StateStore]) and proves the
    properties its specification states about it.

    Python dictionaries are finite maps ([gmap]), the relational tables
    are lists of rows or maps keyed by their unique column, deferred
    results that have completed are plain values, and a raised exception
    is an explicit outcome that is threaded through every call. *)

From stdpp Require Import gmap strings list fin_maps.

Open Scope string_scope.
Open Scope list_scope.

(** ** Constants *)

(** [MAX_STATE_DELTA_HOPS = 100] (state.py, line 39). *)
Definition MAX_STATE_DELTA_HOPS : nat := 100.

Module EventTypes.
(** Modelled from the spec: the create-type constant [EventTypes.Create] of
    [synapse.api.constants], which this excerpt only imports. *)
Definition Create : string := "m.room.create".
Definition CanonicalAlias : string := "m.room.canonical_alias".
End EventTypes.

(** ** Values and events *)

(** JSON values held in an event's [content]. *)
#[warnings="-register-all"]
Inductive json : Type :=
  | JNull
  | JBool (b : bool)
  | JInt (z : Z)
  | JStr (s : string)
  | JList (l : list json)
  | JDict (d : list (string * json)).

(** Modelled from the spec: [EventBase] is consumed as an identifier with
    a content payload and an [is_outlier] flag ([synapse.events] is not in
    this excerpt). *)
Record InternalMetadata := { outlier : bool }.

Definition is_outlier (im : InternalMetadata) : bool := outlier im.

Record EventBase := {
  event_id : string;
  internal_metadata : InternalMetadata;
  content : gmap string json
}.

(** Modelled from the spec: [EventContext] carries the resolver's decision
    ([state_group], [prev_group], [rejected]); state groups are opaque
    identifiers ([synapse.events.snapshot] is not in this excerpt). *)
Record EventContext := {
  state_group : Z;
  prev_group : Z;
  rejected : bool
}.

(** ** The persisted relations *)

(** A row of [current_state_events(room_id, type, state_key, event_id)]. *)
Record current_state_row := {
  cse_room_id : string;
  cse_type : string;
  cse_state_key : string;
  cse_event_id : string
}.

(** A row handed to the insert into
    [event_to_state_groups(event_id UNIQUE, state_group)]:
    the dictionary [{"state_group": ..., "event_id": ...}]. *)
Record assignment_row := {
  row_state_group : Z;
  row_event_id : string
}.

(** What the storage layer and the cache layer do, in order. *)
Inductive effect : Type :=
  | TxnBegin (desc : string)
  | SqlSelect (table : string)
  | SqlInsert (table : string) (rows : list assignment_row)
  | TxnCommit
  | TxnRollback
  | CachePrefill (key : string) (value : Z).

Definition is_read (e : effect) : bool :=
  match e with SqlSelect _ => true | _ => false end.

Definition is_prefill (e : effect) : bool :=
  match e with CachePrefill _ _ => true | _ => false end.

Record Database := {
  current_state_events : list current_state_row;
  event_to_state_groups : gmap string Z;
  events : gmap string EventBase
}.

(** The store: the database, the two caches declared with [@cached], and
    the trace of effects performed so far. The Event→Group cache holds the
    results of the single-item lookup, which is [None] for an event without
    assignment. *)
Record Store := {
  db : Database;
  cache_get_current_state_ids : gmap string (gmap (string * string) string);
  cache_get_state_group_for_event : gmap string (option Z);
  trace : list effect
}.

(** Number of storage reads performed so far. *)
Definition storage_reads (s : Store) : nat :=
  length (filter (λ e, is_read e = true) (trace s)).

Definition set_db (d : Database) (s : Store) : Store :=
  {| db := d;
     cache_get_current_state_ids := cache_get_current_state_ids s;
     cache_get_state_group_for_event := cache_get_state_group_for_event s;
     trace := trace s |}.

Definition set_cache_current (c : gmap string (gmap (string * string) string))
    (s : Store) : Store :=
  {| db := db s;
     cache_get_current_state_ids := c;
     cache_get_state_group_for_event := cache_get_state_group_for_event s;
     trace := trace s |}.

Definition set_cache_group (c : gmap string (option Z)) (s : Store) : Store :=
  {| db := db s;
     cache_get_current_state_ids := cache_get_current_state_ids s;
     cache_get_state_group_for_event := c;
     trace := trace s |}.

Definition log (es : list effect) (s : Store) : Store :=
  {| db := db s;
     cache_get_current_state_ids := cache_get_current_state_ids s;
     cache_get_state_group_for_event := cache_get_state_group_for_event s;
     trace := trace s ++ es |}.

(** ** Exceptions and the two monads *)

Inductive exn : Type :=
  | NotFoundError (msg : string)
  | StorageFault (msg : string).

Inductive outcome (A : Type) : Type :=
  | Returns (a : A)
  | Raises (e : exn).
Arguments Returns {A} a.
Arguments Raises {A} e.

(** A store method: runs on the store, returns or raises. *)
Definition M (A : Type) : Type := Store → outcome A * Store.

Definition ret {A} (a : A) : M A := λ s, (Returns a, s).
Definition raise {A} (e : exn) : M A := λ s, (Raises e, s).
Definition bind {A B} (c : M A) (k : A → M B) : M B :=
  λ s, match c s with
       | (Returns a, s') => k a s'
       | (Raises e, s') => (Raises e, s')
       end.

Declare Scope store_scope.
Delimit Scope store_scope with store.
Notation "x '<~' c ';;' k" := (bind c (λ x, k))
  (at level 100, c at next level, right associativity) : store_scope.

(** Modelled from the spec: the transaction object handed to a [_txn]
    function (class [LoggingTransaction] of [synapse.storage._base], not in
    this excerpt). It sees the database, records its statements, and
    collects the callbacks registered with [call_after]. *)
Inductive callback : Type :=
  | prefill_get_state_group_for_event (key : string) (value : Z).

Record LoggingTransaction := {
  txn_db : Database;
  txn_log : list effect;
  after_callbacks : list callback
}.

Definition T (A : Type) : Type :=
  LoggingTransaction → outcome A * LoggingTransaction.

Definition tret {A} (a : A) : T A := λ t, (Returns a, t).
Definition tbind {A B} (c : T A) (k : A → T B) : T B :=
  λ t, match c t with
       | (Returns a, t') => k a t'
       | (Raises e, t') => (Raises e, t')
       end.

Declare Scope txn_scope.
Delimit Scope txn_scope with txn.
Notation "x '<~' c ';;' k" := (tbind c (λ x, k))
  (at level 100, c at next level, right associativity) : txn_scope.

(** ** The cache layer and the transaction executor *)

(** Modelled from the spec: [call_after] of the transaction object; the
    callback runs after the transaction commits (§4.4). *)
Definition call_after (cb : callback) : T unit :=
  λ t, (Returns tt,
        {| txn_db := txn_db t; txn_log := txn_log t;
           after_callbacks := after_callbacks t ++ [cb] |}).

(** Modelled from the spec: the explicit prefill operation of the cache
    that [@cached] attaches to [_get_state_group_for_event] (§4.4, §9). *)
Definition run_callback (s : Store) (cb : callback) : Store :=
  match cb with
  | prefill_get_state_group_for_event key value =>
      log [CachePrefill key value]
        (set_cache_group
           (<[key := Some value]> (cache_get_state_group_for_event s)) s)
  end.

(** Modelled from the spec: the scoped transaction executor
    [runInteraction] of [SQLBaseStore] (§6: commit-or-rollback). The
    function runs on a transaction over the current database; if it
    returns, its writes are committed and then the [call_after] callbacks
    run in order; if it raises, the database is left as it was and the
    callbacks are dropped. *)
Definition runInteraction {A} (desc : string) (func : T A) : M A :=
  λ s,
    let t0 := {| txn_db := db s; txn_log := []; after_callbacks := [] |} in
    match func t0 with
    | (Returns a, t) =>
        let committed :=
          log ([TxnBegin desc] ++ txn_log t ++ [TxnCommit])
              (set_db (txn_db t) s) in
        (Returns a, fold_left run_callback (after_callbacks t) committed)
    | (Raises e, t) =>
        (Raises e, log ([TxnBegin desc] ++ txn_log t ++ [TxnRollback]) s)
    end.

(** Modelled from the spec: the [@cached] decorator of
    [synapse.util.caches.descriptors] (not in this excerpt), seen from a
    caller whose call runs to completion: a cached key is served from the
    cache without running the method; otherwise the method runs and its
    result fills the key's slot (§4.2, §4.3, §5). Eviction is not part of
    this model: an entry stays until it is overwritten. *)
Section cached.
Context {K V : Type} `{Countable K}.
Variable get_cache : Store → gmap K V.
Variable set_cache : gmap K V → Store → Store.

Definition cached (orig : K → M V) (key : K) : M V :=
  λ s, match get_cache s !! key with
       | Some v => (Returns v, s)
       | None =>
           match orig key s with
           | (Returns v, s') =>
               (Returns v, set_cache (<[key := v]> (get_cache s')) s')
           | (Raises e, s') => (Raises e, s')
           end
       end.
End cached.

(** ** Helpers of the storage base class *)

(** [intern_string] and [to_ascii] return a string equal to their argument. *)
Definition intern_string (s : string) : string := s.
Definition to_ascii (s : string) : string := s.

(** Modelled from the spec: [StateFilter] of [synapse.storage.state] (not in
    this excerpt): "all", or a list of types each with a specific state key
    or a wildcard (§3). *)
Inductive StateFilter : Type :=
  | StateFilter_all
  | StateFilter_from_types (types : list (string * option string)).

(** One disjunct of a WHERE clause; its values are passed separately, in
    order, as the statement's arguments. *)
Inductive sql_clause : Type :=
  | ClauseNothing        (* 1 = 2 *)
  | ClauseType           (* (type = ?) *)
  | ClauseTypeAndKey.    (* (type = ? AND state_key = ?) *)

(** Modelled from the spec: [StateFilter.make_sql_filter_clause]. The
    "all" filter gives the empty clause; any other filter narrows the read
    to the pairs it names. *)
Definition make_sql_filter_clause (f : StateFilter)
    : list sql_clause * list string :=
  match f with
  | StateFilter_all => ([], [])
  | StateFilter_from_types [] => ([ClauseNothing], [])
  | StateFilter_from_types types =>
      (map (λ p, match snd p with
                 | None => ClauseType
                 | Some _ => ClauseTypeAndKey
                 end) types,
       concat (map (λ p, match snd p with
                         | None => [fst p]
                         | Some k => [fst p; k]
                         end) types))
  end.

(** Whether a row satisfies the disjunction [clause] with arguments [args]. *)
Fixpoint eval_where (clause : list sql_clause) (args : list string)
    (r : current_state_row) : bool :=
  match clause with
  | [] => false
  | ClauseNothing :: clause' => eval_where clause' args r
  | ClauseType :: clause' =>
      match args with
      | t :: args' =>
          bool_decide (cse_type r = t) || eval_where clause' args' r
      | _ => false
      end
  | ClauseTypeAndKey :: clause' =>
      match args with
      | t :: k :: args' =>
          (bool_decide (cse_type r = t) && bool_decide (cse_state_key r = k))
          || eval_where clause' args' r
      | _ => false
      end
  end.

(** The statement
    [SELECT type, state_key, event_id FROM current_state_events
     WHERE room_id = ?], with the part [AND (where_clause)] when one was
    appended, and its arguments. *)
Record select_current_state := {
  sql_room_id : string;
  sql_and : option (list sql_clause);
  sql_args : list string
}.

Definition row_selected (sql : select_current_state) (r : current_state_row)
    : bool :=
  bool_decide (cse_room_id r = sql_room_id sql)
  && match sql_and sql with
     | None => true
     | Some where_clause => eval_where where_clause (sql_args sql) r
     end.

(** [txn.execute(sql, args)]; iterating the transaction then yields the
    selected rows. *)
Definition execute (sql : select_current_state)
    : T (list (string * string * string)) :=
  λ t,
    (Returns
       (map (λ r, (cse_type r, cse_state_key r, cse_event_id r))
          (filter (λ r, row_selected sql r = true)
             (current_state_events (txn_db t)))),
     {| txn_db := txn_db t;
        txn_log := txn_log t ++ [SqlSelect "current_state_events"];
        after_callbacks := after_callbacks t |}).

(** Modelled from the spec: [_simple_insert_many_txn] on the table
    [event_to_state_groups(event_id UNIQUE, state_group)] (§4.1, §6): the
    rows are written in one batch; a row whose [event_id] is already
    assigned violates the unique column and the statement raises. *)
Fixpoint insert_rows (values : list assignment_row) (tbl : gmap string Z)
    : option (gmap string Z) :=
  match values with
  | [] => Some tbl
  | r :: values' =>
      match tbl !! row_event_id r with
      | Some _ => None
      | None => insert_rows values' (<[row_event_id r := row_state_group r]> tbl)
      end
  end.

Definition _simple_insert_many_txn (table : string)
    (values : list assignment_row) : T unit :=
  λ t,
    let lg := txn_log t ++ [SqlInsert table values] in
    match insert_rows values (event_to_state_groups (txn_db t)) with
    | Some tbl =>
        (Returns tt,
         {| txn_db := {| current_state_events := current_state_events (txn_db t);
                         event_to_state_groups := tbl;
                         events := events (txn_db t) |};
            txn_log := lg;
            after_callbacks := after_callbacks t |})
    | None =>
        (Raises (StorageFault "UNIQUE constraint failed: event_to_state_groups.event_id"),
         {| txn_db := txn_db t; txn_log := lg;
            after_callbacks := after_callbacks t |})
    end.

(** Modelled from the spec: [_simple_select_one_onecol] with
    [allow_none=True] on [event_to_state_groups], the Delta Store's
    [readAssignment(event_id)] (§4.1): one storage read that returns the
    assigned group, or [None] when the event has no row. *)
Definition _simple_select_one_onecol (desc : string) (event_id : string)
    : M (option Z) :=
  runInteraction desc
    (λ t, (Returns (event_to_state_groups (txn_db t) !! event_id),
           {| txn_db := txn_db t;
              txn_log := txn_log t ++ [SqlSelect "event_to_state_groups"];
              after_callbacks := after_callbacks t |})).

(** Modelled from the spec: [_simple_select_many_batch] on
    [event_to_state_groups]: one storage read that returns the rows whose
    [event_id] is among [iterable] (§4.3). *)
Definition _simple_select_many_batch (desc : string) (iterable : list string)
    : M (list assignment_row) :=
  runInteraction desc
    (λ t, (Returns
             (map (λ kv, {| row_state_group := snd kv; row_event_id := fst kv |})
                (map_to_list
                   (filter (λ kv, fst kv ∈ iterable)
                      (event_to_state_groups (txn_db t))))),
           {| txn_db := txn_db t;
              txn_log := txn_log t ++ [SqlSelect "event_to_state_groups"];
              after_callbacks := after_callbacks t |})).

(** Modelled from the spec: the event loader [get_event] of
    [EventsWorkerStore] (§6: fails [NotFound] if the event is absent). *)
Definition get_event (event_id : string) : M EventBase :=
  λ s, match events (db s) !! event_id with
       | Some ev => (Returns ev, s)
       | None => (Raises (NotFoundError ("Could not find event " +:+ event_id)), s)
       end.

(** Python's truth value of a string: the empty string is false. *)
Definition py_bool_str (s : string) : bool := negb (bool_decide (s = "")).

(** [d.get(key, default)] on a content dictionary. *)
Definition dict_get (d : gmap string json) (key : string) (dflt : json) : json :=
  default dflt (d !! key).

(** A [for] loop inside a transaction. *)
Fixpoint tfor {A} (l : list A) (body : A → T unit) : T unit :=
  match l with
  | [] => tret tt
  | x :: l' => (_ <~ body x ;; tfor l' body)%txn
  end.

(** ** StateGroupWorkerStore *)

(** The dictionary built from the selected rows, a later row replacing an
    earlier one with the same key. *)
Definition rows_to_dict (rows : list (string * string * string))
    : gmap (string * string) string :=
  fold_left
    (λ d r, <[(intern_string (fst (fst r)), intern_string (snd (fst r)))
              := to_ascii (snd r)]> d)
    rows ∅.

Definition _get_current_state_ids_txn (room_id : string)
    : T (gmap (string * string) string) :=
  (rows <~ execute {| sql_room_id := room_id; sql_and := None;
                      sql_args := [] |} ;;
   tret (rows_to_dict rows))%txn.

(** [get_current_state_ids], declared
    [@cached(max_entries=100000, iterable=True)]. *)
Definition get_current_state_ids : string → M (gmap (string * string) string) :=
  cached cache_get_current_state_ids set_cache_current
    (λ room_id,
       runInteraction "get_current_state_ids"
         (_get_current_state_ids_txn room_id)).

Definition _get_filtered_current_state_ids_txn (room_id : string)
    (where_clause : list sql_clause) (where_args : list string)
    : T (gmap (string * string) string) :=
  (rows <~ execute {| sql_room_id := room_id;
                      sql_and := match where_clause with
                                 | [] => None
                                 | _ => Some where_clause
                                 end;
                      sql_args := where_args |} ;;
   tret (fold_left
           (λ results row,
              let '(typ, state_key, event_id) := row in
              <[(intern_string typ, intern_string state_key) := event_id]>
                results)
           rows ∅))%txn.

Definition get_filtered_current_state_ids (room_id : string)
    (state_filter : StateFilter) : M (gmap (string * string) string) :=
  let '(where_clause, where_args) := make_sql_filter_clause state_filter in
  match where_clause with
  | [] =>
      (* We delegate to the cached version *)
      get_current_state_ids room_id
  | _ =>
      runInteraction "get_filtered_current_state_ids"
        (_get_filtered_current_state_ids_txn room_id where_clause where_args)
  end.

Definition get_create_event_for_room (room_id : string) : M EventBase :=
  (state_ids <~ get_current_state_ids room_id ;;
   match state_ids !! (EventTypes.Create, "") with
   | Some create_id =>
       if py_bool_str create_id
       then (create_event <~ get_event create_id ;; ret create_event)
       else raise (NotFoundError ("Unknown room " +:+ room_id))
   | None =>
       (* If we can't find the create event, assume we've hit a dead end *)
       raise (NotFoundError ("Unknown room " +:+ room_id))
   end)%store.

Definition get_room_version (room_id : string) : M json :=
  (create_event <~ get_create_event_for_room room_id ;;
   ret (dict_get (content create_event) "room_version" (JStr "1")))%store.

Definition get_room_predecessor (room_id : string) : M json :=
  (create_event <~ get_create_event_for_room room_id ;;
   ret (dict_get (content create_event) "predecessor" JNull))%store.

(** [_get_state_group_for_event], declared [@cached(max_entries=50000)]. *)
Definition _get_state_group_for_event : string → M (option Z) :=
  cached cache_get_state_group_for_event set_cache_group
    (λ event_id,
       _simple_select_one_onecol "_get_state_group_for_event" event_id).

(** The body of [_get_state_group_for_events], under its decorator. *)
Definition _get_state_group_for_events_orig (event_ids : list string)
    : M (gmap string Z) :=
  (rows <~ _simple_select_many_batch "_get_state_group_for_events" event_ids ;;
   ret (fold_left (λ d row, <[row_event_id row := row_state_group row]> d)
          rows ∅))%store.

(** Modelled from the spec: the [@cachedList] decorator of
    [synapse.util.caches.descriptors] (not in this excerpt), §4.3: keys
    already in the item cache are served from it; the remaining keys are
    fetched with one call of the decorated method; the item cache is
    filled for every fetched key; the result holds only the keys that have
    an assignment. *)
Definition cachedList (orig : list string → M (gmap string Z))
    (event_ids : list string) : M (gmap string Z) :=
  λ s,
    let cache := cache_get_state_group_for_event s in
    let hits : gmap string Z :=
      list_to_map
        (omap (λ e, match cache !! e with
                    | Some (Some g) => Some (e, g)
                    | _ => None
                    end) event_ids) in
    let missing := filter (λ e, cache !! e = None) event_ids in
    match missing with
    | [] => (Returns hits, s)
    | _ =>
        match orig missing s with
        | (Returns fetched, s') =>
            (Returns (hits ∪ fetched),
             set_cache_group
               (fold_left (λ c e, <[e := fetched !! e]> c) missing
                  (cache_get_state_group_for_event s')) s')
        | (Raises e, s') => (Raises e, s')
        end
    end.

Definition _get_state_group_for_events : list string → M (gmap string Z) :=
  cachedList _get_state_group_for_events_orig.

(** ** StateStore *)

(** The loop of [_store_event_state_mappings_txn] that fills the
    dictionary [state_groups]. *)
Definition state_groups_step (state_groups : gmap string Z)
    (ec : EventBase * EventContext) : gmap string Z :=
  let '(event, context) := ec in
  if is_outlier (internal_metadata event) then state_groups
  else if rejected context
       then
         (* if the event was rejected, just give it the same state as its
            predecessor. *)
         <[event_id event := prev_group context]> state_groups
       else <[event_id event := state_group context]> state_groups.

Definition build_state_groups
    (events_and_contexts : list (EventBase * EventContext)) : gmap string Z :=
  fold_left state_groups_step events_and_contexts ∅.

(** The [values] handed to the insert: one dictionary per item of
    [state_groups]. *)
Definition insert_values (state_groups : gmap string Z) : list assignment_row :=
  map (λ kv, {| row_state_group := snd kv; row_event_id := fst kv |})
    (map_to_list state_groups).

Definition _store_event_state_mappings_txn
    (events_and_contexts : list (EventBase * EventContext)) : T unit :=
  let state_groups := build_state_groups events_and_contexts in
  (_ <~ _simple_insert_many_txn "event_to_state_groups"
          (insert_values state_groups) ;;
   tfor (map_to_list state_groups)
     (λ kv, call_after (prefill_get_state_group_for_event (fst kv) (snd kv))))%txn.

(** Modelled from the spec: the Write Coordinator's
    [storeEventStateAssignments] (§4.4), which executes
    [_store_event_state_mappings_txn] inside one storage transaction (its
    caller, the event persistence path, is not in this excerpt). *)
Definition storeEventStateAssignments
    (events_and_contexts : list (EventBase * EventContext)) : M unit :=
  runInteraction "persist_events"
    (_store_event_state_mappings_txn events_and_contexts).

(** ** Further code of [state.py] *)

Module _GetStateGroupDelta.
(** The named tuple [("prev_group", "delta_ids")], the return type of
    [get_state_group_delta]; either field may be [None]. *)
Record t := {
  prev_group : option Z;
  delta_ids : option (gmap (string * string) string)
}.

(** [len(self.delta_ids) if self.delta_ids else 0]: a dictionary is true
    when it is not empty. *)
Definition __len__ (self : t) : nat :=
  match delta_ids self with
  | Some d => if bool_decide (size d ≠ 0%nat) then size d else 0%nat
  | None => 0%nat
  end.
End _GetStateGroupDelta.

(** Modelled from the spec: the event loader called with
    [allow_none=True] ([get_event] of [EventsWorkerStore], §4.2): an absent
    event is [None], not an error. *)
Definition get_event_allow_none (event_id : string) : M (option EventBase) :=
  λ s, (Returns (events (db s) !! event_id), s).

(** [get_canonical_alias_for_room]; a bare [return] gives [None], here
    [JNull]. *)
Definition get_canonical_alias_for_room (room_id : string) : M json :=
  (state <~ get_filtered_current_state_ids room_id
              (StateFilter_from_types [(EventTypes.CanonicalAlias, Some "")]) ;;
   match state !! (EventTypes.CanonicalAlias, "") with
   | Some event_id =>
       if py_bool_str event_id
       then (event <~ get_event_allow_none event_id ;;
             match event with
             | Some event =>
                 ret (dict_get (content event) "canonical_alias" JNull)
             | None => ret JNull
             end)
       else ret JNull
   | None => ret JNull
   end)%store.

(** ** Notions used by the statements *)

(** The value a call returned, if it did not raise. *)
Definition returned {A} (o : outcome A) : option A :=
  match o with Returns a => Some a | Raises _ => None end.

(** The group the loop writes for a pair that is not an outlier. *)
Definition assigned_group (context : EventContext) : Z :=
  if rejected context then prev_group context else state_group context.

Definition row_pair (r : assignment_row) : string * Z :=
  (row_event_id r, row_state_group r).

(** The prefills of a committed call, one per item of [state_groups]. *)
Definition prefill_effects (sg : gmap string Z) : list effect :=
  map (λ kv, CachePrefill (fst kv) (snd kv)) (map_to_list sg).

(** The Event→Group cache agrees with the assignment table. *)
Definition cache_coherent (s : Store) : Prop :=
  ∀ e v, cache_get_state_group_for_event s !! e = Some v →
         event_to_state_groups (db s) !! e = v.

(** The stores the program can be in: any database with empty caches, and
    what the store methods make of a reachable store. *)
Inductive reachable : Store → Prop :=
  | reachable_init d :
      reachable {| db := d;
                   cache_get_current_state_ids := ∅;
                   cache_get_state_group_for_event := ∅;
                   trace := [] |}
  | reachable_store evs s :
      reachable s → reachable (snd (storeEventStateAssignments evs s))
  | reachable_group_for_event e s :
      reachable s → reachable (snd (_get_state_group_for_event e s))
  | reachable_group_for_events es s :
      reachable s → reachable (snd (_get_state_group_for_events es s))
  | reachable_current_state_ids room_id s :
      reachable s → reachable (snd (get_current_state_ids room_id s))
  | reachable_filtered_state_ids room_id f s :
      reachable s → reachable (snd (get_filtered_current_state_ids room_id f s))
  | reachable_create_event room_id s :
      reachable s → reachable (snd (get_create_event_for_room room_id s))
  | reachable_room_version room_id s :
      reachable s → reachable (snd (get_room_version room_id s))
  | reachable_room_predecessor room_id s :
      reachable s → reachable (snd (get_room_predecessor room_id s)).

(** The key of a row of [current_state_events]. *)
Definition row_key (r : current_state_row) : string * string :=
  (cse_type r, cse_state_key r).

(** Whether a WHERE clause with its arguments selects the rows of a key
    (the clauses only look at [type] and [state_key]). *)
Definition key_selected (where_clause : list sql_clause)
    (where_args : list string) (key : string * string) : bool :=
  eval_where where_clause where_args
    {| cse_room_id := ""; cse_type := fst key; cse_state_key := snd key;
       cse_event_id := "" |}.

(** The event id of the last row of a room under a key, if there is one. *)
Definition last_row_event_id (d : Database) (room_id : string)
    (key : string * string) : option string :=
  cse_event_id
    <$> last (filter (λ r, cse_room_id r = room_id ∧ row_key r = key)
                (current_state_events d)).

(** The event ids of the pairs of a batch that are not outliers. *)
Definition assigned_event_ids (evs : list (EventBase * EventContext))
    : list string :=
  map (λ ec, event_id (fst ec))
    (filter (λ ec, is_outlier (internal_metadata (fst ec)) = false) evs).

(** ** Single-flight fetches of [get_current_state_ids] *)

Module SingleFlight.

(** Modelled from the spec: the deferred-level behaviour of the [@cached]
    decorator on [get_current_state_ids] (§4.2, §5), which is not in this
    excerpt. Requests are interleaved at storage reads: a call for a room
    that is neither cached nor being fetched starts the storage read and
    leaves an in-flight entry; a call that finds an in-flight entry
    attaches to it; when the read completes, its result becomes the cached
    value and is handed to every attached caller. *)
Inductive entry : Type :=
  | InFlight (observers : list nat)
  | Completed (value : gmap (string * string) string).

Record state := {
  database : Database;
  cache : gmap string entry;
  reads : list string;
  delivered : list (nat * string * gmap (string * string) string)
}.

Inductive action : Type :=
  | Call (caller : nat) (room_id : string)
  | ReadCompletes (room_id : string).

(** The value the storage read of [get_current_state_ids] yields. *)
Definition read_current_state (d : Database) (room_id : string)
    : gmap (string * string) string :=
  match fst (_get_current_state_ids_txn room_id
               {| txn_db := d; txn_log := []; after_callbacks := [] |}) with
  | Returns m => m
  | Raises _ => ∅
  end.

Definition step (st : state) (a : action) : state :=
  match a with
  | Call caller room_id =>
      match cache st !! room_id with
      | Some (Completed value) =>
          {| database := database st; cache := cache st; reads := reads st;
             delivered := delivered st ++ [(caller, room_id, value)] |}
      | Some (InFlight observers) =>
          {| database := database st;
             cache := <[room_id := InFlight (observers ++ [caller])]> (cache st);
             reads := reads st;
             delivered := delivered st |}
      | None =>
          {| database := database st;
             cache := <[room_id := InFlight [caller]]> (cache st);
             reads := reads st ++ [room_id];
             delivered := delivered st |}
      end
  | ReadCompletes room_id =>
      match cache st !! room_id with
      | Some (InFlight observers) =>
          let value := read_current_state (database st) room_id in
          {| database := database st;
             cache := <[room_id := Completed value]> (cache st);
             reads := reads st;
             delivered := delivered st
                          ++ map (λ caller, (caller, room_id, value)) observers |}
      | _ => st
      end
  end.

Definition run (st : state) (acts : list action) : state :=
  fold_left step acts st.

Definition room_of (a : action) : string :=
  match a with Call _ r => r | ReadCompletes r => r end.

(** The callers of [room_id] in a schedule, in order. *)
Definition callers_of (room_id : string) (acts : list action) : list nat :=
  omap (λ a, match a with
             | Call caller r => if decide (r = room_id) then Some caller else None
             | ReadCompletes _ => None
             end) acts.

(** Storage reads started for [room_id]. *)
Definition reads_of (room_id : string) (st : state) : nat :=
  length (filter (λ r, r = room_id) (reads st)).

(** Results handed to callers of [room_id]. *)
Definition delivered_of (room_id : string) (st : state)
    : list (nat * string * gmap (string * string) string) :=
  filter (λ d, snd (fst d) = room_id) (delivered st).

End SingleFlight.

(** ** Sample data: the room of the specification's scenario *)

Definition example_event (id : string) (o : bool) : EventBase :=
  {| event_id := id; internal_metadata := {| outlier := o |}; content := ∅ |}.

Definition example_context (sg pg : Z) (r : bool) : EventContext :=
  {| state_group := sg; prev_group := pg; rejected := r |}.

Definition empty_store : Store :=
  {| db := {| current_state_events := [];
              event_to_state_groups := ∅;
              events := ∅ |};
     cache_get_current_state_ids := ∅;
     cache_get_state_group_for_event := ∅;
     trace := [] |}.

(** Room [!R] has the create event [$E1] (version 5) and the join event
    [$E2] of [@alice]; room [!old] has a create event without
    [room_version]; [$E1] and [$E2] are assigned the groups 1 and 2. *)
Definition example_database : Database :=
  {| current_state_events :=
       [ {| cse_room_id := "!R"; cse_type := "m.room.create";
            cse_state_key := ""; cse_event_id := "$E1" |};
         {| cse_room_id := "!R"; cse_type := "m.room.member";
            cse_state_key := "@alice"; cse_event_id := "$E2" |};
         {| cse_room_id := "!old"; cse_type := "m.room.create";
            cse_state_key := ""; cse_event_id := "$E0" |} ];
     event_to_state_groups := <["$E1" := 1%Z]> (<["$E2" := 2%Z]> ∅);
     events :=
       <["$E1" := {| event_id := "$E1";
                     internal_metadata := {| outlier := false |};
                     content := <["room_version" := JStr "5"]> ∅ |}]>
         (<["$E0" := {| event_id := "$E0";
                        internal_metadata := {| outlier := false |};
                        content := ∅ |}]> ∅) |}.

Definition example_store : Store :=
  {| db := example_database;
     cache_get_current_state_ids := ∅;
     cache_get_state_group_for_event := ∅;
     trace := [] |}.

Definition example_flight : SingleFlight.state :=
  {| SingleFlight.database := example_database;
     SingleFlight.cache := ∅;
     SingleFlight.reads := [];
     SingleFlight.delivered := [] |}.

(** * Properties *)

(** ** The dictionary [state_groups] *)

Lemma state_groups_step_outlier sg event context :
  is_outlier (internal_metadata event) = true →
  state_groups_step sg (event, context) = sg.
Proof. intros Ho. unfold state_groups_step. by rewrite Ho. Qed.

Lemma state_groups_step_assign sg event context :
  is_outlier (internal_metadata event) = false →
  state_groups_step sg (event, context)
  = <[event_id event := assigned_group context]> sg.
Proof.
  intros Ho. unfold state_groups_step, assigned_group. rewrite Ho.
  by destruct (rejected context).
Qed.

Local Arguments state_groups_step : simpl never.

(** Pairs that are outliers or carry another id leave the entry of [eid]
    as it was. *)
Lemma fold_state_groups_untouched evs eid : ∀ sg,
  (∀ e c, (e, c) ∈ evs → event_id e = eid →
          is_outlier (internal_metadata e) = true) →
  fold_left state_groups_step evs sg !! eid = sg !! eid.
Proof.
  induction evs as [|[e c] evs IH]; intros sg Hall; [done|].
  simpl. rewrite IH.
  - destruct (is_outlier (internal_metadata e)) eqn:Ho.
    + by rewrite state_groups_step_outlier.
    + rewrite state_groups_step_assign by done.
      apply lookup_insert_ne. intros Heq.
      specialize (Hall e c (list_elem_of_here _ _) Heq). congruence.
  - intros e' c' Hin. apply (Hall e' c'). by apply list_elem_of_further.
Qed.

(** The entry of an id is the one written by its last pair that is not an
    outlier. *)
Lemma build_state_groups_last pre e c post :
  is_outlier (internal_metadata e) = false →
  (∀ e' c', (e', c') ∈ post → event_id e' = event_id e →
            is_outlier (internal_metadata e') = true) →
  build_state_groups (pre ++ (e, c) :: post) !! event_id e
  = Some (assigned_group c).
Proof.
  intros Ho Hpost. unfold build_state_groups.
  rewrite fold_left_app. simpl.
  rewrite fold_state_groups_untouched by done.
  rewrite state_groups_step_assign by done.
  apply lookup_insert_eq.
Qed.

(** An entry of [state_groups] comes from some pair that is not an outlier. *)
Lemma fold_state_groups_origin evs : ∀ sg eid g,
  fold_left state_groups_step evs sg !! eid = Some g →
  sg !! eid = Some g ∨
  ∃ e c, (e, c) ∈ evs ∧ event_id e = eid
         ∧ is_outlier (internal_metadata e) = false ∧ assigned_group c = g.
Proof.
  induction evs as [|[e c] evs IH]; intros sg eid g Hl; [by left|].
  simpl in Hl. apply IH in Hl as [Hl|(e' & c' & Hin & ?)].
  - destruct (is_outlier (internal_metadata e)) eqn:Ho.
    + rewrite state_groups_step_outlier in Hl by done. by left.
    + rewrite state_groups_step_assign in Hl by done.
      destruct (decide (event_id e = eid)) as [<-|Hne].
      * rewrite lookup_insert_eq in Hl. right. exists e, c.
        split; [apply list_elem_of_here|]. naive_solver.
      * rewrite lookup_insert_ne in Hl by done. by left.
  - right. exists e', c'. split; [by apply list_elem_of_further|done].
Qed.

(** ** The batched insert *)

Lemma insert_rows_Some values : ∀ tbl tbl',
  insert_rows values tbl = Some tbl' →
  tbl' = list_to_map (map row_pair values) ∪ tbl
  ∧ ∀ r, r ∈ values → tbl !! row_event_id r = None.
Proof.
  induction values as [|r values IH]; intros tbl tbl' H; simpl in H.
  - injection H as <-. split; [simpl; by rewrite map_empty_union|]. by intros r ?%elem_of_nil.
  - destruct (tbl !! row_event_id r) eqn:Hr; [done|].
    apply IH in H as [-> Hfresh]. split.
    + simpl. apply map_eq. intros k.
      destruct (decide (row_event_id r = k)) as [<-|Hne].
      * rewrite lookup_union_r.
        2:{ apply not_elem_of_list_to_map_1. intros Hin.
            apply list_elem_of_fmap in Hin as [[k v] [Hk Hin]].
            apply list_elem_of_fmap in Hin as [r' [Hr' Hin]].
            specialize (Hfresh r' Hin). unfold row_pair in Hr'.
            simpl in Hk. injection Hr' as -> ->.
            rewrite Hk in Hfresh. by rewrite lookup_insert_eq in Hfresh. }
        rewrite lookup_insert_eq.
        erewrite lookup_union_Some_l; [done|]. apply lookup_insert_eq.
      * rewrite !lookup_union. rewrite !lookup_insert_ne by done. done.
    + intros r' Hin. apply elem_of_cons in Hin as [->|Hin]; [done|].
      specialize (Hfresh r' Hin).
      destruct (decide (row_event_id r = row_event_id r')) as [Heq|Hne].
      * rewrite Heq in Hfresh. by rewrite lookup_insert_eq in Hfresh.
      * by rewrite lookup_insert_ne in Hfresh.
Qed.

Lemma insert_rows_fresh values : ∀ tbl,
  NoDup (map row_event_id values) →
  (∀ r, r ∈ values → tbl !! row_event_id r = None) →
  is_Some (insert_rows values tbl).
Proof.
  induction values as [|r values IH]; intros tbl Hnd Hfresh; simpl; [done|].
  rewrite (Hfresh r) by apply list_elem_of_here.
  apply NoDup_cons in Hnd as [Hnotin Hnd]. apply IH; [done|].
  intros r' Hin. rewrite lookup_insert_ne.
  - apply Hfresh. by apply list_elem_of_further.
  - intros Heq. apply Hnotin. rewrite Heq. apply list_elem_of_fmap. eauto.
Qed.

Lemma insert_values_pairs (sg : gmap string Z) :
  map row_pair (insert_values sg) = map_to_list sg.
Proof.
  unfold insert_values. rewrite map_map. unfold row_pair. simpl.
  rewrite <- (map_id (map_to_list sg)) at 2.
  apply map_ext. by intros [k v].
Qed.

Lemma insert_values_keys (sg : gmap string Z) :
  map row_event_id (insert_values sg) = map fst (map_to_list sg).
Proof. unfold insert_values. by rewrite map_map. Qed.

(** ** The transaction of the Write Coordinator *)

Lemma tfor_call_after {A} (f : A → callback) (l : list A) : ∀ t,
  tfor l (λ x, call_after (f x)) t
  = (Returns tt,
     {| txn_db := txn_db t; txn_log := txn_log t;
        after_callbacks := after_callbacks t ++ map f l |}).
Proof.
  induction l as [|x l IH]; intros t; simpl.
  - unfold tret. rewrite app_nil_r. by destruct t.
  - unfold tbind, call_after. rewrite IH. simpl. by rewrite <- app_assoc.
Qed.

Lemma run_callbacks_prefill (l : list (string * Z)) : ∀ s,
  fold_left run_callback
    (map (λ kv, prefill_get_state_group_for_event (fst kv) (snd kv)) l) s
  = {| db := db s;
       cache_get_current_state_ids := cache_get_current_state_ids s;
       cache_get_state_group_for_event :=
         fold_left (λ c kv, <[fst kv := Some (snd kv)]> c) l
           (cache_get_state_group_for_event s);
       trace := trace s ++ map (λ kv, CachePrefill (fst kv) (snd kv)) l |}.
Proof.
  induction l as [|[k v] l IH]; intros s; simpl.
  - rewrite app_nil_r. by destruct s.
  - rewrite IH. simpl. by rewrite <- app_assoc.
Qed.

Lemma fold_prefill_lookup (l : list (string * Z)) : ∀ (c : gmap string (option Z)) k,
  NoDup (map fst l) →
  fold_left (λ c kv, <[fst kv := Some (snd kv)]> c) l c !! k
  = match (list_to_map l : gmap string Z) !! k with
    | Some g => Some (Some g)
    | None => c !! k
    end.
Proof.
  induction l as [|[k' v] l IH]; intros c k Hnd; simpl; [done|].
  apply NoDup_cons in Hnd as [Hnotin Hnd]. rewrite IH by done.
  destruct (decide (k' = k)) as [->|Hne].
  - rewrite lookup_insert_eq.
    rewrite (not_elem_of_list_to_map_1 l k) by done.
    by rewrite lookup_insert_eq.
  - rewrite !lookup_insert_ne by done. done.
Qed.

(** What the call does, by the outcome of the insert. *)
Lemma storeEventStateAssignments_unfold evs s :
  storeEventStateAssignments evs s
  = let sg := build_state_groups evs in
    match insert_rows (insert_values sg) (event_to_state_groups (db s)) with
    | Some tbl =>
        (Returns tt,
         {| db := {| current_state_events := current_state_events (db s);
                     event_to_state_groups := tbl;
                     events := events (db s) |};
            cache_get_current_state_ids := cache_get_current_state_ids s;
            cache_get_state_group_for_event :=
              fold_left (λ c kv, <[fst kv := Some (snd kv)]> c) (map_to_list sg)
                (cache_get_state_group_for_event s);
            trace := trace s
                     ++ [TxnBegin "persist_events";
                         SqlInsert "event_to_state_groups" (insert_values sg);
                         TxnCommit]
                     ++ prefill_effects sg |})
    | None =>
        (Raises (StorageFault "UNIQUE constraint failed: event_to_state_groups.event_id"),
         log [TxnBegin "persist_events";
              SqlInsert "event_to_state_groups" (insert_values sg);
              TxnRollback] s)
    end.
Proof.
  unfold storeEventStateAssignments, runInteraction,
    _store_event_state_mappings_txn, tbind, _simple_insert_many_txn.
  simpl.
  destruct (insert_rows _ _) as [tbl|]; [|done].
  rewrite tfor_call_after. simpl. rewrite run_callbacks_prefill. simpl.
  unfold prefill_effects. by rewrite <- app_assoc.
Qed.

(** A committed call: the table gains exactly the items of [state_groups],
    none of which was assigned before, and the cache is prefilled with
    them after the commit. *)
Lemma storeEventStateAssignments_commit evs s u s' :
  storeEventStateAssignments evs s = (Returns u, s') →
  let sg := build_state_groups evs in
  event_to_state_groups (db s') = sg ∪ event_to_state_groups (db s)
  ∧ (∀ k, is_Some (sg !! k) → event_to_state_groups (db s) !! k = None)
  ∧ (∀ k, cache_get_state_group_for_event s' !! k
          = match sg !! k with
            | Some g => Some (Some g)
            | None => cache_get_state_group_for_event s !! k
            end)
  ∧ cache_get_current_state_ids s' = cache_get_current_state_ids s
  ∧ trace s' = trace s
               ++ [TxnBegin "persist_events";
                   SqlInsert "event_to_state_groups" (insert_values sg);
                   TxnCommit]
               ++ prefill_effects sg.
Proof.
  rewrite storeEventStateAssignments_unfold. simpl.
  destruct (insert_rows _ _) as [tbl|] eqn:Hins; [|done].
  intros [= _ <-]. simpl.
  apply insert_rows_Some in Hins as [-> Hfresh].
  rewrite insert_values_pairs, list_to_map_to_list.
  split_and!; try done.
  - intros k [g Hk]. apply (Hfresh {| row_state_group := g; row_event_id := k |}).
    unfold insert_values. apply list_elem_of_fmap. exists (k, g).
    split; [done|]. by apply elem_of_map_to_list.
  - intros k. rewrite fold_prefill_lookup by apply NoDup_fst_map_to_list.
    by rewrite list_to_map_to_list.
Qed.

(** A call that raises: nothing is written and nothing is prefilled. *)
Lemma storeEventStateAssignments_rollback evs s e s' :
  storeEventStateAssignments evs s = (Raises e, s') →
  s' = log [TxnBegin "persist_events";
            SqlInsert "event_to_state_groups"
              (insert_values (build_state_groups evs));
            TxnRollback] s.
Proof.
  rewrite storeEventStateAssignments_unfold. simpl.
  destruct (insert_rows _ _) as [tbl|] eqn:Hins; [done|]. by intros [= _ <-].
Qed.

(** The call commits whenever none of the events it assigns has a row yet. *)
Lemma storeEventStateAssignments_commits evs s :
  (∀ k, is_Some (build_state_groups evs !! k) →
        event_to_state_groups (db s) !! k = None) →
  ∃ s', storeEventStateAssignments evs s = (Returns tt, s').
Proof.
  intros Hfresh. rewrite storeEventStateAssignments_unfold. simpl.
  destruct (insert_rows_fresh (insert_values (build_state_groups evs))
              (event_to_state_groups (db s))) as [tbl ->]; [| |eauto].
  - rewrite insert_values_keys. apply NoDup_fst_map_to_list.
  - intros r Hin. apply Hfresh. unfold insert_values in Hin.
    apply list_elem_of_fmap in Hin as [[k g] [-> Hin]].
    apply elem_of_map_to_list in Hin. simpl. eauto.
Qed.

(** ** C1: rejected events inherit [prev_group] *)

(** C1, as stated, fails: a rejected pair followed in the same call by an
    accepted pair with the same [event_id] is overwritten in
    [state_groups], and the committed assignment is the later pair's
    [state_group]. *)
Lemma rejected_pair_overwritten_counterexample :
  ¬ (∀ evs s s' e c,
       storeEventStateAssignments evs s = (Returns tt, s') →
       (e, c) ∈ evs →
       is_outlier (internal_metadata e) = false →
       rejected c = true →
       event_to_state_groups (db s') !! event_id e = Some (prev_group c)).
Proof.
  intros H.
  pose (evs := [(example_event "$E" false, example_context 2 1 true);
                (example_event "$E" false, example_context 3 2 false)]).
  assert (Hbad : event_to_state_groups
                   (db (snd (storeEventStateAssignments evs empty_store)))
                 !! "$E" = Some 1%Z).
  { apply (H evs empty_store _ (example_event "$E" false)
             (example_context 2 1 true)).
    - vm_compute. reflexivity.
    - apply list_elem_of_here.
    - reflexivity.
    - reflexivity. }
  vm_compute in Hbad. discriminate Hbad.
Qed.

(** C1 (amended): in a call that commits, a pair that is not an outlier,
    is rejected, and is not followed by another non-outlier pair with the
    same [event_id], has [context.prev_group] as the committed assignment
    of its [event_id]. *)
Theorem rejected_event_assigned_prev_group pre e c post s s' :
  storeEventStateAssignments (pre ++ (e, c) :: post) s = (Returns tt, s') →
  is_outlier (internal_metadata e) = false →
  rejected c = true →
  (∀ e' c', (e', c') ∈ post → event_id e' = event_id e →
            is_outlier (internal_metadata e') = true) →
  event_to_state_groups (db s') !! event_id e = Some (prev_group c).
Proof.
  intros Hrun Ho Hrej Hpost.
  apply storeEventStateAssignments_commit in Hrun as (Htbl & _).
  rewrite Htbl. apply lookup_union_Some_l.
  rewrite build_state_groups_last by done.
  unfold assigned_group. by rewrite Hrej.
Qed.

Lemma rejected_event_assigned_prev_group_witness :
  event_to_state_groups
    (db (snd (storeEventStateAssignments
                ([(example_event "$A" false, example_context 5 4 false)]
                 ++ (example_event "$B" false, example_context 7 5 true)
                 :: [(example_event "$B" true, example_context 9 8 false)])
                empty_store)))
  !! "$B" = Some 5%Z.
Proof.
  apply (rejected_event_assigned_prev_group
           [(example_event "$A" false, example_context 5 4 false)]
           (example_event "$B" false) (example_context 7 5 true)
           [(example_event "$B" true, example_context 9 8 false)]
           empty_store).
  - vm_compute. reflexivity.
  - reflexivity.
  - reflexivity.
  - intros e' c' Hin _. apply list_elem_of_singleton in Hin.
    injection Hin as -> _. reflexivity.
Defined.

(** ** C2: outliers are skipped *)

(** C2, as stated, fails: when the [event_id] of an outlier pair also
    occurs in a pair that is not an outlier, the call writes and prefills
    an assignment for that [event_id]. *)
Lemma outlier_event_id_assigned_counterexample :
  ¬ (∀ evs s r s' e c,
       storeEventStateAssignments evs s = (r, s') →
       (e, c) ∈ evs →
       is_outlier (internal_metadata e) = true →
       event_to_state_groups (db s') !! event_id e = None
       ∧ cache_get_state_group_for_event s' !! event_id e = None).
Proof.
  intros H.
  pose (evs := [(example_event "$E" true, example_context 3 2 false);
                (example_event "$E" false, example_context 5 4 false)]).
  destruct (H evs empty_store (Returns tt)
              (snd (storeEventStateAssignments evs empty_store))
              (example_event "$E" true) (example_context 3 2 false))
    as [Htbl _].
  - vm_compute. reflexivity.
  - apply list_elem_of_here.
  - reflexivity.
  - vm_compute in Htbl. discriminate Htbl.
Qed.

(** C2 (amended): an outlier pair adds no row and no prefill. For an
    [event_id] that occurs in the call only in outlier pairs,
    [state_groups] has no entry, and the call leaves the assignment table
    and the Event→Group cache at that [event_id] as they were (without an
    assignment if there was none). *)
Theorem outlier_event_contributes_nothing evs s eid :
  (∀ e c, (e, c) ∈ evs → event_id e = eid →
          is_outlier (internal_metadata e) = true) →
  build_state_groups evs !! eid = None
  ∧ event_to_state_groups (db (snd (storeEventStateAssignments evs s))) !! eid
    = event_to_state_groups (db s) !! eid
  ∧ cache_get_state_group_for_event (snd (storeEventStateAssignments evs s)) !! eid
    = cache_get_state_group_for_event s !! eid.
Proof.
  intros Hout.
  assert (Hsg : build_state_groups evs !! eid = None).
  { unfold build_state_groups. by rewrite fold_state_groups_untouched. }
  split; [done|].
  destruct (storeEventStateAssignments evs s) as [[u|err] s'] eqn:Hrun; simpl.
  - destruct u.
    apply storeEventStateAssignments_commit in Hrun as (Htbl & _ & Hcache & _).
    rewrite Htbl, Hcache, lookup_union_r, Hsg; done.
  - apply storeEventStateAssignments_rollback in Hrun as ->. done.
Qed.

Lemma outlier_event_contributes_nothing_witness :
  build_state_groups
    [(example_event "$O" true, example_context 3 2 false);
     (example_event "$A" false, example_context 5 4 false)] !! "$O" = None
  ∧ event_to_state_groups
      (db (snd (storeEventStateAssignments
                  [(example_event "$O" true, example_context 3 2 false);
                   (example_event "$A" false, example_context 5 4 false)]
                  empty_store))) !! "$O"
    = event_to_state_groups (db empty_store) !! "$O"
  ∧ cache_get_state_group_for_event
      (snd (storeEventStateAssignments
              [(example_event "$O" true, example_context 3 2 false);
               (example_event "$A" false, example_context 5 4 false)]
              empty_store)) !! "$O"
    = cache_get_state_group_for_event empty_store !! "$O".
Proof.
  apply (outlier_event_contributes_nothing
           [(example_event "$O" true, example_context 3 2 false);
            (example_event "$A" false, example_context 5 4 false)]
           empty_store "$O").
  intros e c Hin Heq.
  apply elem_of_cons in Hin as [Hin|Hin].
  - injection Hin as -> _. reflexivity.
  - apply list_elem_of_singleton in Hin. injection Hin as -> _.
    vm_compute in Heq. discriminate Heq.
Defined.

(** ** C10: duplicate event ids in one call *)

Lemma filter_rows_absent (l : list (string * Z)) k :
  k ∉ map fst l →
  filter (λ r, row_event_id r = k)
    (map (λ kv, {| row_state_group := snd kv; row_event_id := fst kv |}) l) = [].
Proof.
  induction l as [|[k' v'] l IH]; intros Hk; simpl; [done|].
  rewrite filter_cons_False.
  - apply IH. intros Hin. apply Hk. simpl. by apply list_elem_of_further.
  - simpl. intros ->. apply Hk. simpl. apply list_elem_of_here.
Qed.

Lemma filter_rows_unique (l : list (string * Z)) k v :
  NoDup (map fst l) → (k, v) ∈ l →
  filter (λ r, row_event_id r = k)
    (map (λ kv, {| row_state_group := snd kv; row_event_id := fst kv |}) l)
  = [{| row_state_group := v; row_event_id := k |}].
Proof.
  induction l as [|[k' v'] l IH]; intros Hnd Hin; [by apply elem_of_nil in Hin|].
  simpl in Hnd. apply NoDup_cons in Hnd as [Hnotin Hnd].
  apply elem_of_cons in Hin as [Heq|Hin]; simpl.
  - injection Heq as <- <-. rewrite filter_cons_True by done.
    by rewrite filter_rows_absent.
  - rewrite filter_cons_False; [by apply IH|].
    simpl. intros ->. apply Hnotin. apply list_elem_of_fmap. by exists (k, v).
Qed.

(** C10: when several pairs that are not outliers carry the same
    [event_id], the batched insert receives exactly one row for that
    [event_id], and its state group is the one computed from the last such
    pair in input order; if the call commits, that is the assignment in the
    table. *)
Theorem duplicate_event_id_last_pair_wins pre e c post s :
  is_outlier (internal_metadata e) = false →
  (∀ e' c', (e', c') ∈ post → event_id e' = event_id e →
            is_outlier (internal_metadata e') = true) →
  ∃ rows rest,
    trace (snd (storeEventStateAssignments (pre ++ (e, c) :: post) s))
    = trace s ++ TxnBegin "persist_events"
              :: SqlInsert "event_to_state_groups" rows :: rest
    ∧ filter (λ r, row_event_id r = event_id e) rows
      = [{| row_state_group := assigned_group c; row_event_id := event_id e |}]
    ∧ ∀ s', storeEventStateAssignments (pre ++ (e, c) :: post) s
            = (Returns tt, s') →
            event_to_state_groups (db s') !! event_id e
            = Some (assigned_group c).
Proof.
  intros Ho Hpost.
  pose proof (build_state_groups_last pre e c post Ho Hpost) as Hsg.
  exists (insert_values (build_state_groups (pre ++ (e, c) :: post))).
  destruct (storeEventStateAssignments (pre ++ (e, c) :: post) s)
    as [[u|err] s1] eqn:Hrun; simpl.
  - destruct u.
    apply storeEventStateAssignments_commit in Hrun as (Htbl & _ & _ & _ & Htr).
    eexists. split; [exact Htr|]. split.
    + apply filter_rows_unique; [apply NoDup_fst_map_to_list|].
      by apply elem_of_map_to_list.
    + intros s' [= <-]. rewrite Htbl. by apply lookup_union_Some_l.
  - apply storeEventStateAssignments_rollback in Hrun as ->.
    eexists. split; [reflexivity|]. split; [|done].
    apply filter_rows_unique; [apply NoDup_fst_map_to_list|].
    by apply elem_of_map_to_list.
Qed.

Lemma duplicate_event_id_last_pair_wins_witness :
  ∃ rows rest,
    trace (snd (storeEventStateAssignments
                  ([(example_event "$E" false, example_context 2 1 true)]
                   ++ (example_event "$E" false, example_context 6 5 false)
                   :: [(example_event "$F" false, example_context 7 6 false)])
                  empty_store))
    = trace empty_store ++ TxnBegin "persist_events"
        :: SqlInsert "event_to_state_groups" rows :: rest
    ∧ filter (λ r, row_event_id r = "$E") rows
      = [{| row_state_group := 6; row_event_id := "$E" |}]
    ∧ ∀ s', storeEventStateAssignments
              ([(example_event "$E" false, example_context 2 1 true)]
               ++ (example_event "$E" false, example_context 6 5 false)
               :: [(example_event "$F" false, example_context 7 6 false)])
              empty_store
            = (Returns tt, s') →
            event_to_state_groups (db s') !! "$E" = Some 6%Z.
Proof.
  apply (duplicate_event_id_last_pair_wins
           [(example_event "$E" false, example_context 2 1 true)]
           (example_event "$E" false) (example_context 6 5 false)
           [(example_event "$F" false, example_context 7 6 false)]
           empty_store).
  - reflexivity.
  - intros e' c' Hin Heq. apply list_elem_of_singleton in Hin.
    injection Hin as -> _. vm_compute in Heq. discriminate Heq.
Defined.

(** ** C3: prefill after commit *)

(** C3: in a call that commits, the trace is the transaction's statements,
    none of which is a prefill, then the commit, then one prefill per
    assignment made; each assignment (E, G) is in the table, and
    [_get_state_group_for_event E] on the resulting store returns G and
    leaves the store, hence its trace of storage reads, as it is. In a
    call that raises, the cache is as before and no prefill occurs. *)
Theorem prefill_only_after_commit evs s :
  let sg := build_state_groups evs in
  match storeEventStateAssignments evs s with
  | (Returns _, s') =>
      (∃ stmts,
         trace s' = trace s ++ [TxnBegin "persist_events"] ++ stmts
                    ++ [TxnCommit] ++ prefill_effects sg
         ∧ Forall (λ ef, is_prefill ef = false) stmts)
      ∧ ∀ E G, sg !! E = Some G →
          CachePrefill E G ∈ prefill_effects sg
          ∧ event_to_state_groups (db s') !! E = Some G
          ∧ _get_state_group_for_event E s' = (Returns (Some G), s')
          ∧ storage_reads (snd (_get_state_group_for_event E s'))
            = storage_reads s'
  | (Raises _, s') =>
      cache_get_state_group_for_event s' = cache_get_state_group_for_event s
      ∧ Forall (λ ef, is_prefill ef = false) (drop (length (trace s)) (trace s'))
  end.
Proof.
  intros sg.
  destruct (storeEventStateAssignments evs s) as [[u|err] s'] eqn:Hrun.
  - destruct u.
    apply storeEventStateAssignments_commit in Hrun
      as (Htbl & _ & Hcache & _ & Htr).
    fold sg in Htbl, Hcache, Htr. split.
    + exists [SqlInsert "event_to_state_groups" (insert_values sg)].
      split; [exact Htr|]. by repeat constructor.
    + intros E G HE. split_and!.
      * unfold prefill_effects. apply list_elem_of_fmap. exists (E, G).
        split; [done|]. by apply elem_of_map_to_list.
      * rewrite Htbl. by apply lookup_union_Some_l.
      * unfold _get_state_group_for_event, cached.
        by rewrite Hcache, HE.
      * unfold _get_state_group_for_event, cached.
        by rewrite Hcache, HE.
  - apply storeEventStateAssignments_rollback in Hrun as ->. simpl.
    split; [done|]. rewrite drop_app_length. by repeat constructor.
Qed.

Lemma prefill_only_after_commit_witness :
  _get_state_group_for_event "$B"
    (snd (storeEventStateAssignments
            [(example_event "$A" false, example_context 5 4 false);
             (example_event "$B" false, example_context 7 5 true)]
            empty_store))
  = (Returns (Some 5%Z),
     snd (storeEventStateAssignments
            [(example_event "$A" false, example_context 5 4 false);
             (example_event "$B" false, example_context 7 5 true)]
            empty_store)).
Proof.
  pose proof (prefill_only_after_commit
                [(example_event "$A" false, example_context 5 4 false);
                 (example_event "$B" false, example_context 7 5 true)]
                empty_store) as H.
  cbv zeta in H.
  destruct (storeEventStateAssignments _ empty_store) as [[u|err] s'] eqn:Hrun.
  - destruct H as [_ H].
    destruct (H "$B" 5%Z) as (_ & _ & Hget & _); [|exact Hget].
    vm_compute. reflexivity.
  - vm_compute in Hrun. discriminate Hrun.
Defined.

(** ** C4: the "all" filter delegates *)

(** What a call of [get_current_state_ids] adds to the trace: nothing on
    a cache hit, one transaction with one read on a miss. *)
Lemma get_current_state_ids_trace room_id s :
  trace (snd (get_current_state_ids room_id s))
  = trace s
    ++ match cache_get_current_state_ids s !! room_id with
       | Some _ => []
       | None => [TxnBegin "get_current_state_ids";
                  SqlSelect "current_state_events"; TxnCommit]
       end.
Proof.
  unfold get_current_state_ids, cached.
  destruct (cache_get_current_state_ids s !! room_id); simpl; [|done].
  by rewrite app_nil_r.
Qed.

(** C4: with the "all" filter, [get_filtered_current_state_ids] is the
    call [get_current_state_ids]: same mapping and same effect on the
    store. It reuses that method's cache (a cached room is answered from
    the cache, the store untouched), and no transaction of the filtered
    read path is run. *)
Theorem get_filtered_current_state_ids_all room_id s :
  get_filtered_current_state_ids room_id StateFilter_all s
  = get_current_state_ids room_id s
  ∧ (∀ m, cache_get_current_state_ids s !! room_id = Some m →
          get_filtered_current_state_ids room_id StateFilter_all s
          = (Returns m, s))
  ∧ TxnBegin "get_filtered_current_state_ids"
    ∉ drop (length (trace s))
        (trace (snd (get_filtered_current_state_ids room_id StateFilter_all s))).
Proof.
  assert (Heq : get_filtered_current_state_ids room_id StateFilter_all s
                = get_current_state_ids room_id s) by reflexivity.
  split_and!; [exact Heq| |].
  - intros m Hm. rewrite Heq. unfold get_current_state_ids, cached.
    by rewrite Hm.
  - rewrite Heq, get_current_state_ids_trace, drop_app_length.
    destruct (cache_get_current_state_ids s !! room_id).
    + apply not_elem_of_nil.
    + intros Hin. repeat (apply elem_of_cons in Hin as [Hin|Hin]; [discriminate Hin|]).
      by apply elem_of_nil in Hin.
Qed.

Lemma get_filtered_current_state_ids_all_witness :
  get_filtered_current_state_ids "!R" StateFilter_all
    (snd (get_current_state_ids "!R" example_store))
  = (Returns (rows_to_dict [("m.room.create", "", "$E1");
                            ("m.room.member", "@alice", "$E2")]),
     snd (get_current_state_ids "!R" example_store)).
Proof.
  apply (get_filtered_current_state_ids_all "!R"
           (snd (get_current_state_ids "!R" example_store))).
  apply lookup_insert_eq.
Defined.

(** ** C5 and C6: the create event *)

(** [get_current_state_ids] always returns. *)
Lemma get_current_state_ids_returns room_id s :
  ∃ state_ids s', get_current_state_ids room_id s = (Returns state_ids, s').
Proof.
  unfold get_current_state_ids, cached.
  destruct (cache_get_current_state_ids s !! room_id); eauto.
Qed.

(** C5: when the room's current state has no entry under the key
    (create-type, ""), the three lookups raise [NotFoundError]. *)
Theorem no_create_event_raises_not_found room_id s state_ids s1 :
  get_current_state_ids room_id s = (Returns state_ids, s1) →
  state_ids !! (EventTypes.Create, "") = None →
  get_create_event_for_room room_id s
  = (Raises (NotFoundError ("Unknown room " +:+ room_id)), s1)
  ∧ get_room_version room_id s
    = (Raises (NotFoundError ("Unknown room " +:+ room_id)), s1)
  ∧ get_room_predecessor room_id s
    = (Raises (NotFoundError ("Unknown room " +:+ room_id)), s1).
Proof.
  intros Hget Hnone.
  assert (Hc : get_create_event_for_room room_id s
               = (Raises (NotFoundError ("Unknown room " +:+ room_id)), s1)).
  { unfold get_create_event_for_room, bind. by rewrite Hget, Hnone. }
  unfold get_room_version, get_room_predecessor, bind. by rewrite Hc.
Qed.

(** C6: when the room's create event is found, [get_room_version] returns
    its content field [room_version] as it is, and the string "1" when the
    content has no such field. *)
Theorem get_room_version_of_create_event room_id s create_event s1 :
  get_create_event_for_room room_id s = (Returns create_event, s1) →
  get_room_version room_id s
  = (Returns match content create_event !! "room_version" with
             | Some v => v
             | None => JStr "1"
             end, s1).
Proof.
  intros Hc. unfold get_room_version, bind, ret, dict_get. rewrite Hc.
  by destruct (content create_event !! "room_version").
Qed.

(** The create event is found when the current state names it and the
    event store holds it. *)
Lemma get_create_event_for_room_returns room_id s state_ids s1 create_id ev :
  get_current_state_ids room_id s = (Returns state_ids, s1) →
  state_ids !! (EventTypes.Create, "") = Some create_id →
  create_id ≠ "" →
  events (db s1) !! create_id = Some ev →
  get_create_event_for_room room_id s = (Returns ev, s1).
Proof.
  intros Hget Hid Hne Hev.
  unfold get_create_event_for_room, bind. rewrite Hget, Hid.
  unfold py_bool_str. rewrite bool_decide_eq_false_2 by done. simpl.
  unfold get_event. by rewrite Hev.
Qed.

Lemma no_create_event_raises_not_found_witness :
  get_create_event_for_room "!unknown" example_store
  = (Raises (NotFoundError "Unknown room !unknown"),
     snd (get_current_state_ids "!unknown" example_store))
  ∧ get_room_version "!unknown" example_store
    = (Raises (NotFoundError "Unknown room !unknown"),
       snd (get_current_state_ids "!unknown" example_store))
  ∧ get_room_predecessor "!unknown" example_store
    = (Raises (NotFoundError "Unknown room !unknown"),
       snd (get_current_state_ids "!unknown" example_store)).
Proof.
  apply (no_create_event_raises_not_found "!unknown" example_store ∅).
  - vm_compute. reflexivity.
  - reflexivity.
Defined.

Lemma get_room_version_of_create_event_witness :
  fst (get_room_version "!R" example_store) = Returns (JStr "5")
  ∧ fst (get_room_version "!old" example_store) = Returns (JStr "1").
Proof.
  split.
  - rewrite (get_room_version_of_create_event "!R" example_store
               {| event_id := "$E1";
                  internal_metadata := {| outlier := false |};
                  content := <["room_version" := JStr "5"]> ∅ |}
               (snd (get_current_state_ids "!R" example_store))).
    + reflexivity.
    + vm_compute. reflexivity.
  - rewrite (get_room_version_of_create_event "!old" example_store
               {| event_id := "$E0";
                  internal_metadata := {| outlier := false |};
                  content := ∅ |}
               (snd (get_current_state_ids "!old" example_store))).
    + reflexivity.
    + vm_compute. reflexivity.
Defined.

(** The scenario of the specification: the current state of [!R] has
    exactly the create event and the join of [@alice]; a filtered lookup
    returns the one entry asked for and leaves the full-state cache of
    [!R] untouched. *)
Example scenario_current_state :
  let m := returned (fst (get_current_state_ids "!R" example_store)) in
  m ≫= (.!! ("m.room.create", "")) = Some "$E1"
  ∧ m ≫= (.!! ("m.room.member", "@alice")) = Some "$E2"
  ∧ size <$> m = Some 2%nat.
Proof. vm_compute. split_and!; reflexivity. Qed.

Example scenario_filtered_lookup :
  let r := get_filtered_current_state_ids "!R"
             (StateFilter_from_types [("m.room.member", Some "@alice")])
             example_store in
  returned (fst r) ≫= (.!! ("m.room.member", "@alice")) = Some "$E2"
  ∧ size <$> returned (fst r) = Some 1%nat
  ∧ cache_get_current_state_ids (snd r) !! "!R" = None.
Proof. vm_compute. split_and!; reflexivity. Qed.

(** ** C7: the Event→Group lookups *)

Lemma rows_to_assignments (l : list (string * Z)) : ∀ (d : gmap string Z) k,
  NoDup (map fst l) →
  fold_left (λ d row, <[row_event_id row := row_state_group row]> d)
    (map (λ kv, {| row_state_group := snd kv; row_event_id := fst kv |}) l) d
  !! k
  = match (list_to_map l : gmap string Z) !! k with
    | Some g => Some g
    | None => d !! k
    end.
Proof.
  induction l as [|[k' v] l IH]; intros d k Hnd; simpl; [done|].
  apply NoDup_cons in Hnd as [Hnotin Hnd]. rewrite IH by done.
  destruct (decide (k' = k)) as [->|Hne].
  - rewrite lookup_insert_eq.
    rewrite (not_elem_of_list_to_map_1 l k) by done.
    by rewrite lookup_insert_eq.
  - by rewrite !lookup_insert_ne by done.
Qed.

Lemma filter_key_lookup (tbl : gmap string Z) (ids : list string) (e : string) :
  filter (λ kv, fst kv ∈ ids) tbl !! e
  = if bool_decide (e ∈ ids) then tbl !! e else None.
Proof.
  rewrite map_lookup_filter.
  destruct (tbl !! e) as [g|]; simpl; [|by case_bool_decide].
  case_bool_decide as Hin.
  - by rewrite option_guard_True.
  - by rewrite option_guard_False.
Qed.

(** The decorated method's own body: one storage read, and a dictionary
    with exactly the requested events that have a row. *)
Lemma _get_state_group_for_events_orig_spec event_ids s :
  _get_state_group_for_events_orig event_ids s
  = (Returns (filter (λ kv, fst kv ∈ event_ids) (event_to_state_groups (db s))),
     log [TxnBegin "_get_state_group_for_events";
          SqlSelect "event_to_state_groups"; TxnCommit]
       (set_db (db s) s)).
Proof.
  unfold _get_state_group_for_events_orig, bind, _simple_select_many_batch,
    runInteraction, ret. simpl. f_equal. f_equal.
  apply map_eq. intros k.
  rewrite rows_to_assignments by apply NoDup_fst_map_to_list.
  rewrite list_to_map_to_list, lookup_empty.
  by destruct (filter _ _ !! k).
Qed.

Lemma hits_lookup (cache : gmap string (option Z)) (event_ids : list string)
    (e : string) :
  (list_to_map
     (omap (λ e, match cache !! e with
                 | Some (Some g) => Some (e, g)
                 | _ => None
                 end) event_ids) : gmap string Z) !! e
  = if bool_decide (e ∈ event_ids)
    then match cache !! e with Some (Some g) => Some g | _ => None end
    else None.
Proof.
  induction event_ids as [|x l IH].
  { case_bool_decide as Hin; [by apply elem_of_nil in Hin|apply lookup_empty]. }
  assert (Hcons : ∀ f : string → option (string * Z),
            omap f (x :: l)
            = match f x with Some y => y :: omap f l | None => omap f l end)
    by done.
  rewrite Hcons. clear Hcons.
  destruct (decide (x = e)) as [->|Hne].
  - rewrite (bool_decide_eq_true_2 (e ∈ e :: l)) by apply list_elem_of_here.
    destruct (cache !! e) as [[g|]|] eqn:Hc.
    + rewrite list_to_map_cons. apply lookup_insert_eq.
    + rewrite IH. by case_bool_decide.
    + rewrite IH. by case_bool_decide.
  - assert (Hiff : bool_decide (e ∈ x :: l) = bool_decide (e ∈ l)).
    { apply bool_decide_ext. rewrite elem_of_cons.
      split; [intros [?|?]; [congruence|done]|by right]. }
    rewrite Hiff, <- IH.
    destruct (cache !! x) as [[g|]|]; [|done|done].
    rewrite list_to_map_cons. by rewrite lookup_insert_ne.
Qed.

Lemma fold_fill_lookup (fetched : gmap string Z) (missing : list string) :
  ∀ (c : gmap string (option Z)) k,
  fold_left (λ c e, <[e := fetched !! e]> c) missing c !! k
  = if bool_decide (k ∈ missing) then Some (fetched !! k) else c !! k.
Proof.
  induction missing as [|x l IH]; intros c k.
  { case_bool_decide as Hin; [by apply elem_of_nil in Hin|done]. }
  simpl. rewrite IH. destruct (decide (x = k)) as [->|Hne].
  - rewrite (bool_decide_eq_true_2 (k ∈ k :: l)) by apply list_elem_of_here.
    case_bool_decide; [done|]. by rewrite lookup_insert_eq.
  - assert (Hiff : bool_decide (k ∈ x :: l) = bool_decide (k ∈ l)).
    { apply bool_decide_ext. rewrite elem_of_cons.
      split; [intros [?|?]; [congruence|done]|by right]. }
    rewrite Hiff. destruct (bool_decide (k ∈ l)); [done|].
    by rewrite lookup_insert_ne.
Qed.

(** What the batched lookup returns and how it leaves the store. *)
Lemma _get_state_group_for_events_spec event_ids s :
  cache_coherent s →
  ∃ m s', _get_state_group_for_events event_ids s = (Returns m, s')
    ∧ (∀ e, m !! e = if bool_decide (e ∈ event_ids)
                     then event_to_state_groups (db s) !! e else None)
    ∧ db s' = db s
    ∧ cache_coherent s'.
Proof.
  intros Hcoh. unfold _get_state_group_for_events, cachedList.
  remember (cache_get_state_group_for_event s) as cache eqn:Hcache.
  remember (filter (λ e0, cache !! e0 = None) event_ids) as missing eqn:Hmissing.
  assert (Hmiss : ∀ e, e ∈ missing ↔ cache !! e = None ∧ e ∈ event_ids).
  { intros e. rewrite Hmissing. by rewrite list_elem_of_filter. }
  assert (Hres : ∀ e,
    (list_to_map
       (omap (λ e, match cache !! e with
                   | Some (Some g) => Some (e, g)
                   | _ => None
                   end) event_ids)
     ∪ filter (λ kv, fst kv ∈ missing) (event_to_state_groups (db s))) !! e
    = if bool_decide (e ∈ event_ids)
      then event_to_state_groups (db s) !! e else None).
  { intros e. rewrite lookup_union, hits_lookup, filter_key_lookup.
    case_bool_decide as Hin.
    - destruct (cache !! e) as [[g|]|] eqn:Hc.
      + rewrite Hcache in Hc. rewrite (Hcoh e (Some g) Hc).
        by case_bool_decide.
      + rewrite Hcache in Hc. rewrite (Hcoh e None Hc). by case_bool_decide.
      + rewrite bool_decide_eq_true_2 by (by apply Hmiss).
        by destruct (event_to_state_groups (db s) !! e).
    - rewrite bool_decide_eq_false_2; [done|].
      intros Hm. apply Hmiss in Hm as [_ Hm]. done. }
  destruct missing as [|x l].
  - eexists _, s. split; [reflexivity|]. split; [|done].
    intros e. rewrite <- Hres, lookup_union, filter_key_lookup.
    rewrite bool_decide_eq_false_2 by apply not_elem_of_nil.
    by destruct (_ !! e).
  - rewrite _get_state_group_for_events_orig_spec.
    eexists _, _. split; [reflexivity|]. split; [exact Hres|].
    split; [done|].
    remember (x :: l) as missing eqn:Hcons.
    intros e v. simpl. rewrite fold_fill_lookup, filter_key_lookup.
    case_bool_decide as Hin.
    + by intros [= <-].
    + apply Hcoh.
Qed.

(** What the single-item lookup returns and how it leaves the store. *)
Lemma _get_state_group_for_event_spec e s :
  cache_coherent s →
  ∃ s', _get_state_group_for_event e s
        = (Returns (event_to_state_groups (db s) !! e), s')
    ∧ db s' = db s
    ∧ cache_coherent s'.
Proof.
  intros Hcoh. unfold _get_state_group_for_event, cached.
  destruct (cache_get_state_group_for_event s !! e) as [v|] eqn:Hc.
  - exists s. by rewrite (Hcoh e v Hc).
  - eexists. split; [reflexivity|]. split; [done|].
    intros e' v. simpl. rewrite lookup_insert.
    case_decide as Heq; [|apply Hcoh]. subst e'. by intros [= <-].
Qed.

(** The invariant holds with empty caches and is kept by the Write
    Coordinator. *)
Lemma cache_coherent_empty s :
  cache_get_state_group_for_event s = ∅ → cache_coherent s.
Proof. intros He e v. by rewrite He, lookup_empty. Qed.

Lemma cache_coherent_storeEventStateAssignments evs s :
  cache_coherent s →
  cache_coherent (snd (storeEventStateAssignments evs s)).
Proof.
  intros Hcoh.
  destruct (storeEventStateAssignments evs s) as [[u|err] s'] eqn:Hrun; simpl.
  - destruct u.
    apply storeEventStateAssignments_commit in Hrun
      as (Htbl & Hfresh & Hcache & _).
    intros e v. rewrite Hcache, Htbl, lookup_union.
    destruct (build_state_groups evs !! e) as [g|] eqn:Hsg.
    + intros [= <-]. rewrite Hfresh by eauto. done.
    + intros Hc. rewrite (Hcoh e v Hc). by destruct v.
  - apply storeEventStateAssignments_rollback in Hrun as ->. exact Hcoh.
Qed.

(** The lookups of current state leave the assignment table and the
    Event→Group cache alone. *)
Lemma get_current_state_ids_store room_id s :
  db (snd (get_current_state_ids room_id s)) = db s
  ∧ cache_get_state_group_for_event (snd (get_current_state_ids room_id s))
    = cache_get_state_group_for_event s.
Proof.
  unfold get_current_state_ids, cached.
  by destruct (cache_get_current_state_ids s !! room_id).
Qed.

Lemma get_filtered_current_state_ids_store room_id f s :
  db (snd (get_filtered_current_state_ids room_id f s)) = db s
  ∧ cache_get_state_group_for_event
      (snd (get_filtered_current_state_ids room_id f s))
    = cache_get_state_group_for_event s.
Proof.
  destruct f as [|[|p types]]; [apply get_current_state_ids_store|done|done].
Qed.

Lemma get_create_event_for_room_store room_id s :
  snd (get_create_event_for_room room_id s)
  = snd (get_current_state_ids room_id s).
Proof.
  unfold get_create_event_for_room, bind.
  destruct (get_current_state_ids_returns room_id s) as (m & s1 & ->). simpl.
  destruct (m !! (EventTypes.Create, "")) as [create_id|]; [|done].
  destruct (py_bool_str create_id); [|done].
  unfold get_event. by destruct (events (db s1) !! create_id).
Qed.

Lemma get_room_version_store room_id s :
  snd (get_room_version room_id s) = snd (get_current_state_ids room_id s).
Proof.
  rewrite <- get_create_event_for_room_store. unfold get_room_version, bind.
  by destruct (get_create_event_for_room room_id s) as [[ev|e] s1].
Qed.

Lemma get_room_predecessor_store room_id s :
  snd (get_room_predecessor room_id s) = snd (get_current_state_ids room_id s).
Proof.
  rewrite <- get_create_event_for_room_store. unfold get_room_predecessor, bind.
  by destruct (get_create_event_for_room room_id s) as [[ev|e] s1].
Qed.

Lemma cache_coherent_same s s' :
  db s' = db s
  ∧ cache_get_state_group_for_event s' = cache_get_state_group_for_event s →
  cache_coherent s → cache_coherent s'.
Proof. intros [Hd Hc] Hcoh e v. rewrite Hd, Hc. apply Hcoh. Qed.

(** Every reachable store has a cache that agrees with the table. *)
Lemma reachable_cache_coherent s : reachable s → cache_coherent s.
Proof.
  induction 1 as [d|evs s _ IH|e s _ IH|es s _ IH|room_id s _ IH
                 |room_id f s _ IH|room_id s _ IH|room_id s _ IH|room_id s _ IH].
  - by apply cache_coherent_empty.
  - by apply cache_coherent_storeEventStateAssignments.
  - destruct (_get_state_group_for_event_spec e s IH) as (s' & -> & _ & Hc).
    exact Hc.
  - destruct (_get_state_group_for_events_spec es s IH)
      as (m & s' & -> & _ & _ & Hc).
    exact Hc.
  - by apply (cache_coherent_same s); [apply get_current_state_ids_store|].
  - by apply (cache_coherent_same s); [apply get_filtered_current_state_ids_store|].
  - rewrite get_create_event_for_room_store.
    by apply (cache_coherent_same s); [apply get_current_state_ids_store|].
  - rewrite get_room_version_store.
    by apply (cache_coherent_same s); [apply get_current_state_ids_store|].
  - rewrite get_room_predecessor_store.
    by apply (cache_coherent_same s); [apply get_current_state_ids_store|].
Qed.

(** C7: on every reachable store, the batched lookup returns a dictionary
    whose keys are exactly the requested events that have an assignment,
    each with its group (an event without assignment has no key); the
    single-item lookup returns the assignment, which is [None], not an
    exception, for an event without one. *)
Theorem get_state_group_lookups_exact event_ids s :
  reachable s →
  (∃ m s', _get_state_group_for_events event_ids s = (Returns m, s')
     ∧ ∀ e, m !! e = if bool_decide (e ∈ event_ids)
                     then event_to_state_groups (db s) !! e else None)
  ∧ (∀ e, ∃ s', _get_state_group_for_event e s
                = (Returns (event_to_state_groups (db s) !! e), s'))
  ∧ (∀ e, event_to_state_groups (db s) !! e = None →
          ∃ s', _get_state_group_for_event e s = (Returns None, s')).
Proof.
  intros Hcoh%reachable_cache_coherent. split_and!.
  - destruct (_get_state_group_for_events_spec event_ids s Hcoh)
      as (m & s' & Hrun & Hm & _). eauto.
  - intros e.
    destruct (_get_state_group_for_event_spec e s Hcoh) as (s' & Hrun & _).
    eauto.
  - intros e Hnone.
    destruct (_get_state_group_for_event_spec e s Hcoh) as (s' & Hrun & _).
    rewrite Hnone in Hrun. eauto.
Qed.

Lemma get_state_group_lookups_exact_witness :
  (∃ m s', _get_state_group_for_events ["$E1"; "$E9"; "$E2"] example_store
           = (Returns m, s')
     ∧ ∀ e, m !! e = if bool_decide (e ∈ ["$E1"; "$E9"; "$E2"])
                     then event_to_state_groups (db example_store) !! e
                     else None)
  ∧ (∀ e, ∃ s', _get_state_group_for_event e example_store
                = (Returns (event_to_state_groups (db example_store) !! e), s'))
  ∧ (∀ e, event_to_state_groups (db example_store) !! e = None →
          ∃ s', _get_state_group_for_event e example_store = (Returns None, s')).
Proof.
  apply (get_state_group_lookups_exact ["$E1"; "$E9"; "$E2"] example_store).
  apply reachable_init.
Defined.

(** The example of the specification: of three requested events only the
    two with an assignment are keys of the result. *)
Example batched_lookup_omits_unassigned :
  fst (_get_state_group_for_events ["$E1"; "$E9"; "$E2"] example_store)
  = Returns (<["$E1" := 1%Z]> (<["$E2" := 2%Z]> ∅))
  ∧ fst (_get_state_group_for_event "$E9" example_store) = Returns None.
Proof. vm_compute. split; reflexivity. Qed.

(** ** C8: concurrent calls share one storage read *)

Lemma delivered_of_app_other room st value (obs : list nat) r :
  r ≠ room →
  filter (λ d : nat * string * gmap (string * string) string,
            snd (fst d) = room)
    (SingleFlight.delivered st ++ map (λ caller, (caller, r, value)) obs)
  = SingleFlight.delivered_of room st.
Proof.
  intros Hne. rewrite filter_app.
  assert (Hnil : filter (λ d : nat * string * gmap (string * string) string,
                           snd (fst d) = room)
                   (map (λ caller, (caller, r, value)) obs) = []).
  { induction obs as [|c obs IH]; [done|]. simpl.
    rewrite filter_cons_False by done. exact IH. }
  rewrite Hnil. apply app_nil_r.
Qed.

Lemma delivered_of_map_same room value (obs : list nat) :
  filter (λ d : nat * string * gmap (string * string) string,
            snd (fst d) = room)
    (map (λ caller, (caller, room, value)) obs)
  = map (λ caller, (caller, room, value)) obs.
Proof.
  induction obs as [|c obs IH]; [done|]. simpl.
  rewrite filter_cons_True by done. by rewrite IH.
Qed.

(** A step for another room leaves this room's entry, reads and results
    as they are. *)
Lemma step_other_room room st a :
  SingleFlight.room_of a ≠ room →
  SingleFlight.cache (SingleFlight.step st a) !! room
  = SingleFlight.cache st !! room
  ∧ SingleFlight.reads_of room (SingleFlight.step st a)
    = SingleFlight.reads_of room st
  ∧ SingleFlight.delivered_of room (SingleFlight.step st a)
    = SingleFlight.delivered_of room st
  ∧ SingleFlight.database (SingleFlight.step st a) = SingleFlight.database st.
Proof.
  intros Hne. destruct a as [c r|r]; simpl in Hne; unfold SingleFlight.step.
  - destruct (SingleFlight.cache st !! r) as [[obs|v]|]; simpl;
      unfold SingleFlight.reads_of, SingleFlight.delivered_of; simpl.
    + by rewrite lookup_insert_ne.
    + split_and!; try done.
      apply (delivered_of_app_other room st v [c] r Hne).
    + rewrite lookup_insert_ne by done. split_and!; try done.
      rewrite filter_app, filter_cons_False by done.
      by rewrite filter_nil, app_nil_r.
  - destruct (SingleFlight.cache st !! r) as [[obs|v]|]; simpl; try done.
    unfold SingleFlight.reads_of, SingleFlight.delivered_of; simpl.
    rewrite lookup_insert_ne by done. split_and!; try done.
    by apply delivered_of_app_other.
Qed.

(** While the fetch for [room] is in flight, further calls attach to it. *)
Lemma run_in_flight room acts : ∀ st obs,
  Forall (λ a, a ≠ SingleFlight.ReadCompletes room) acts →
  SingleFlight.cache st !! room = Some (SingleFlight.InFlight obs) →
  SingleFlight.cache (SingleFlight.run st acts) !! room
  = Some (SingleFlight.InFlight (obs ++ SingleFlight.callers_of room acts))
  ∧ SingleFlight.reads_of room (SingleFlight.run st acts)
    = SingleFlight.reads_of room st
  ∧ SingleFlight.delivered_of room (SingleFlight.run st acts)
    = SingleFlight.delivered_of room st
  ∧ SingleFlight.database (SingleFlight.run st acts) = SingleFlight.database st.
Proof.
  induction acts as [|a acts IH]; intros st obs Hall Hc.
  { simpl. by rewrite app_nil_r. }
  apply Forall_cons in Hall as [Ha Hall].
  unfold SingleFlight.run. simpl. fold (SingleFlight.run (SingleFlight.step st a) acts).
  destruct (decide (SingleFlight.room_of a = room)) as [Heq|Hne].
  - destruct a as [c r|r]; simpl in Heq; subst r; [|done].
    assert (Hstep : SingleFlight.step st (SingleFlight.Call c room)
                    = {| SingleFlight.database := SingleFlight.database st;
                         SingleFlight.cache :=
                           <[room := SingleFlight.InFlight (obs ++ [c])]>
                             (SingleFlight.cache st);
                         SingleFlight.reads := SingleFlight.reads st;
                         SingleFlight.delivered := SingleFlight.delivered st |}).
    { unfold SingleFlight.step. by rewrite Hc. }
    assert (Hc1 : SingleFlight.cache
                    (SingleFlight.step st (SingleFlight.Call c room)) !! room
                  = Some (SingleFlight.InFlight (obs ++ [c]))).
    { rewrite Hstep. apply lookup_insert_eq. }
    destruct (IH _ (obs ++ [c]) Hall Hc1) as (H1 & H2 & H3 & H4).
    rewrite H1, H2, H3, H4, Hstep. split_and!; try done.
    unfold SingleFlight.callers_of. simpl.
    rewrite decide_True by done. by rewrite <- app_assoc.
  - destruct (step_other_room room st a Hne) as (E1 & E2 & E3 & E4).
    rewrite <- E1 in Hc.
    destruct (IH _ obs Hall Hc) as (H1 & H2 & H3 & H4).
    rewrite H1, H2, H3, H4, E2, E3, E4. split_and!; try done.
    do 2 f_equal. f_equal. unfold SingleFlight.callers_of.
    destruct a as [c r|r]; simpl in *; [|done]. by rewrite decide_False.
Qed.

(** The first call for an uncached room starts the one storage read. *)
Lemma run_uncached room acts : ∀ st,
  Forall (λ a, a ≠ SingleFlight.ReadCompletes room) acts →
  SingleFlight.cache st !! room = None →
  SingleFlight.callers_of room acts ≠ [] →
  SingleFlight.cache (SingleFlight.run st acts) !! room
  = Some (SingleFlight.InFlight (SingleFlight.callers_of room acts))
  ∧ SingleFlight.reads_of room (SingleFlight.run st acts)
    = S (SingleFlight.reads_of room st)
  ∧ SingleFlight.delivered_of room (SingleFlight.run st acts)
    = SingleFlight.delivered_of room st
  ∧ SingleFlight.database (SingleFlight.run st acts) = SingleFlight.database st.
Proof.
  induction acts as [|a acts IH]; intros st Hall Hc Hcallers; [done|].
  apply Forall_cons in Hall as [Ha Hall].
  unfold SingleFlight.run. simpl.
  fold (SingleFlight.run (SingleFlight.step st a) acts).
  destruct (decide (SingleFlight.room_of a = room)) as [Heq|Hne].
  - destruct a as [c r|r]; simpl in Heq; subst r; [|done].
    assert (Hstep : SingleFlight.step st (SingleFlight.Call c room)
                    = {| SingleFlight.database := SingleFlight.database st;
                         SingleFlight.cache :=
                           <[room := SingleFlight.InFlight [c]]>
                             (SingleFlight.cache st);
                         SingleFlight.reads := SingleFlight.reads st ++ [room];
                         SingleFlight.delivered := SingleFlight.delivered st |}).
    { unfold SingleFlight.step. by rewrite Hc. }
    assert (Hc1 : SingleFlight.cache
                    (SingleFlight.step st (SingleFlight.Call c room)) !! room
                  = Some (SingleFlight.InFlight [c])).
    { rewrite Hstep. apply lookup_insert_eq. }
    destruct (run_in_flight room acts _ [c] Hall Hc1) as (H1 & H2 & H3 & H4).
    rewrite H1, H2, H3, H4, Hstep. split_and!; try done.
    + unfold SingleFlight.callers_of. simpl. by rewrite decide_True.
    + unfold SingleFlight.reads_of. simpl.
      rewrite filter_app, length_app, filter_cons_True by done.
      rewrite filter_nil. simpl. lia.
  - destruct (step_other_room room st a Hne) as (E1 & E2 & E3 & E4).
    assert (Hsame : SingleFlight.callers_of room (a :: acts)
                    = SingleFlight.callers_of room acts).
    { unfold SingleFlight.callers_of.
      destruct a as [c r|r]; simpl in *; [|done]. by rewrite decide_False. }
    rewrite Hsame in *. rewrite <- E1 in Hc.
    destruct (IH _ Hall Hc Hcallers) as (H1 & H2 & H3 & H4).
    rewrite H1, H2, H3, H4, E2, E3, E4. split_and!; try done.
    do 2 f_equal. destruct a as [c r|r]; simpl in *; [|done].
    by rewrite decide_False.
Qed.

(** C8: K ≥ 2 calls of [get_current_state_ids] for the same uncached room,
    issued (in any interleaving with requests for other rooms) before the
    fetch completes, start exactly one storage read for that room, and
    when it completes every one of the K callers receives the same
    mapping. *)
Theorem concurrent_calls_share_one_read room st acts :
  SingleFlight.cache st !! room = None →
  Forall (λ a, a ≠ SingleFlight.ReadCompletes room) acts →
  (2 ≤ length (SingleFlight.callers_of room acts))%nat →
  let st' := SingleFlight.run st (acts ++ [SingleFlight.ReadCompletes room]) in
  let value := SingleFlight.read_current_state (SingleFlight.database st) room in
  SingleFlight.reads_of room st' = S (SingleFlight.reads_of room st)
  ∧ SingleFlight.delivered_of room st'
    = SingleFlight.delivered_of room st
      ++ map (λ caller, (caller, room, value)) (SingleFlight.callers_of room acts)
  ∧ SingleFlight.cache st' !! room = Some (SingleFlight.Completed value).
Proof.
  intros Hc Hall HK st' value.
  assert (Hne : SingleFlight.callers_of room acts ≠ []).
  { intros Hnil. rewrite Hnil in HK. simpl in HK. lia. }
  destruct (run_uncached room acts st Hall Hc Hne) as (H1 & H2 & H3 & H4).
  unfold st', SingleFlight.run. rewrite fold_left_app. simpl.
  fold (SingleFlight.run st acts). rewrite H1.
  unfold SingleFlight.reads_of, SingleFlight.delivered_of. simpl.
  rewrite H4. fold value. split_and!.
  - exact H2.
  - rewrite filter_app. fold (SingleFlight.delivered_of room (SingleFlight.run st acts)).
    rewrite H3. f_equal. apply delivered_of_map_same.
  - apply lookup_insert_eq.
Qed.

Lemma concurrent_calls_share_one_read_witness :
  let acts := [SingleFlight.Call 1 "!R"; SingleFlight.Call 7 "!old";
               SingleFlight.Call 2 "!R"; SingleFlight.Call 3 "!R"] in
  let st' := SingleFlight.run example_flight
               (acts ++ [SingleFlight.ReadCompletes "!R"]) in
  let value := SingleFlight.read_current_state
                 (SingleFlight.database example_flight) "!R" in
  SingleFlight.reads_of "!R" st' = S (SingleFlight.reads_of "!R" example_flight)
  ∧ SingleFlight.delivered_of "!R" st'
    = SingleFlight.delivered_of "!R" example_flight
      ++ map (λ caller, (caller, "!R", value)) (SingleFlight.callers_of "!R" acts)
  ∧ SingleFlight.cache st' !! "!R" = Some (SingleFlight.Completed value).
Proof.
  apply (concurrent_calls_share_one_read "!R" example_flight
           [SingleFlight.Call 1 "!R"; SingleFlight.Call 7 "!old";
            SingleFlight.Call 2 "!R"; SingleFlight.Call 3 "!R"]).
  - reflexivity.
  - repeat (constructor; [discriminate|]). constructor.
  - vm_compute. lia.
Defined.

(** Three callers of [!R], one storage read, one mapping for all. *)
Example three_callers_one_read :
  let st' := SingleFlight.run example_flight
               [SingleFlight.Call 1 "!R"; SingleFlight.Call 2 "!R";
                SingleFlight.Call 3 "!R"; SingleFlight.ReadCompletes "!R"] in
  SingleFlight.reads st' = ["!R"]
  ∧ map fst (SingleFlight.delivered st') = [(1, "!R"); (2, "!R"); (3, "!R")]
  ∧ map (λ d, snd d !! ("m.room.member", "@alice")) (SingleFlight.delivered st')
    = [Some "$E2"; Some "$E2"; Some "$E2"].
Proof. vm_compute. split_and!; reflexivity. Qed.

(** * Further properties *)

(** ** Reading the current state *)

(** A key of a dictionary filled row by row is bound to the event id of
    the last row with that key. *)
Lemma rows_fold_lookup
    (g : gmap (string * string) string → string * string * string
         → gmap (string * string) string) :
  (∀ d r, g d (cse_type r, cse_state_key r, cse_event_id r)
          = <[row_key r := cse_event_id r]> d) →
  ∀ (l : list current_state_row) d (key : string * string),
  fold_left g (map (λ r, (cse_type r, cse_state_key r, cse_event_id r)) l) d
  !! key
  = match last (filter (λ r, row_key r = key) l) with
    | Some r => Some (cse_event_id r)
    | None => d !! key
    end.
Proof.
  intros Hg l. induction l as [|x l IH]; intros d key; [done|].
  cbn [map fold_left]. rewrite IH, Hg.
  destruct (decide (row_key x = key)) as [Hk|Hk].
  - rewrite filter_cons_True by done. rewrite last_cons.
    destruct (last (filter _ l)); [done|].
    rewrite <- Hk. apply lookup_insert_eq.
  - rewrite filter_cons_False by done.
    destruct (last (filter _ l)); [done|].
    by apply lookup_insert_ne.
Qed.

(** The clauses look at the type and the state key of a row only. *)
Lemma eval_where_key clause : ∀ args r,
  eval_where clause args r = key_selected clause args (row_key r).
Proof.
  unfold key_selected.
  induction clause as [|c clause IH]; intros args r; [done|].
  destruct c; simpl.
  - apply IH.
  - destruct args as [|t args]; [done|]. by rewrite IH.
  - destruct args as [|t [|k args]]; [done|done|]. by rewrite IH.
Qed.

(** The rows a statement selects, by its room and its optional clause. *)
Lemma selected_rows_lookup
    (g : gmap (string * string) string → string * string * string
         → gmap (string * string) string)
    (sql : select_current_state) (d : Database) (key : string * string) :
  (∀ m r, g m (cse_type r, cse_state_key r, cse_event_id r)
          = <[row_key r := cse_event_id r]> m) →
  fold_left g
    (map (λ r, (cse_type r, cse_state_key r, cse_event_id r))
       (filter (λ r, row_selected sql r = true) (current_state_events d))) ∅
  !! key
  = if match sql_and sql with
       | None => true
       | Some where_clause => key_selected where_clause (sql_args sql) key
       end
    then last_row_event_id d (sql_room_id sql) key
    else None.
Proof.
  intros Hg. rewrite (rows_fold_lookup g Hg), list_filter_filter, lookup_empty.
  unfold last_row_event_id.
  destruct (match sql_and sql with
            | None => true
            | Some where_clause => key_selected where_clause (sql_args sql) key
            end) eqn:Hsel.
  - rewrite (list_filter_iff
               (λ r, row_key r = key ∧ row_selected sql r = true)
               (λ r, cse_room_id r = sql_room_id sql ∧ row_key r = key)).
    + by destruct (last _).
    + intros r. unfold row_selected.
      rewrite andb_true_iff, bool_decide_eq_true.
      split; [tauto|]. intros [Hr Hk]. split_and!; [done|done|].
      destruct (sql_and sql); [|done]. by rewrite eval_where_key, Hk.
  - rewrite (list_filter_iff
               (λ r, row_key r = key ∧ row_selected sql r = true)
               (λ _, False)).
    + by induction (current_state_events d).
    + intros r. unfold row_selected. split; [|done].
      intros [Hk Hsel']. apply andb_true_iff in Hsel' as [_ Hsel'].
      destruct (sql_and sql); [|done].
      rewrite eval_where_key, Hk in Hsel'. congruence.
Qed.

(** X1: on a cache miss, [get_current_state_ids] reads the rows of the room
    once, returns the dictionary that binds each (type, state_key) to the
    event id of the last row of the room with that key (rows of other rooms
    and keys without a row give no entry), and caches it under the room. *)
Theorem get_current_state_ids_last_row_wins room_id s :
  cache_get_current_state_ids s !! room_id = None →
  ∃ m s', get_current_state_ids room_id s = (Returns m, s')
    ∧ (∀ key, m !! key = last_row_event_id (db s) room_id key)
    ∧ cache_get_current_state_ids s' !! room_id = Some m
    ∧ db s' = db s
    ∧ storage_reads s' = S (storage_reads s).
Proof.
  intros Hmiss. unfold get_current_state_ids, cached. rewrite Hmiss.
  eexists _, _. split; [reflexivity|]. split_and!.
  - intros key. unfold rows_to_dict.
    by rewrite (selected_rows_lookup _
                  {| sql_room_id := room_id; sql_and := None; sql_args := [] |}).
  - apply lookup_insert_eq.
  - done.
  - unfold storage_reads. simpl. rewrite filter_app, length_app. simpl. lia.
Qed.

Lemma get_current_state_ids_last_row_wins_witness :
  ∃ m s', get_current_state_ids "!R" example_store = (Returns m, s')
    ∧ (∀ key, m !! key = last_row_event_id (db example_store) "!R" key)
    ∧ cache_get_current_state_ids s' !! "!R" = Some m
    ∧ db s' = db example_store
    ∧ storage_reads s' = S (storage_reads example_store).
Proof.
  apply (get_current_state_ids_last_row_wins "!R" example_store).
  reflexivity.
Defined.

(** X2: with a filter whose clause is not empty,
    [get_filtered_current_state_ids] neither consults nor fills a cache:
    every call runs its own transaction with one storage read, also when
    the room's full state is cached, and leaves the database and both
    caches as they were. *)
Theorem filtered_lookup_bypasses_cache room_id f s :
  fst (make_sql_filter_clause f) ≠ [] →
  let s' := snd (get_filtered_current_state_ids room_id f s) in
  db s' = db s
  ∧ cache_get_current_state_ids s' = cache_get_current_state_ids s
  ∧ cache_get_state_group_for_event s' = cache_get_state_group_for_event s
  ∧ trace s' = trace s ++ [TxnBegin "get_filtered_current_state_ids";
                           SqlSelect "current_state_events"; TxnCommit]
  ∧ storage_reads s' = S (storage_reads s).
Proof.
  intros Hne. unfold get_filtered_current_state_ids.
  destruct (make_sql_filter_clause f) as [clause args]. simpl in Hne.
  destruct clause as [|c clause]; [done|]. simpl. split_and!; try done.
  unfold storage_reads. simpl. rewrite filter_app, length_app. simpl. lia.
Qed.

Lemma filtered_lookup_bypasses_cache_witness :
  let f := StateFilter_from_types [("m.room.member", Some "@alice")] in
  let s := snd (get_current_state_ids "!R" example_store) in
  let s' := snd (get_filtered_current_state_ids "!R" f s) in
  db s' = db s
  ∧ cache_get_current_state_ids s' = cache_get_current_state_ids s
  ∧ cache_get_state_group_for_event s' = cache_get_state_group_for_event s
  ∧ trace s' = trace s ++ [TxnBegin "get_filtered_current_state_ids";
                           SqlSelect "current_state_events"; TxnCommit]
  ∧ storage_reads s' = S (storage_reads s).
Proof.
  apply (filtered_lookup_bypasses_cache "!R"
           (StateFilter_from_types [("m.room.member", Some "@alice")])
           (snd (get_current_state_ids "!R" example_store))).
  discriminate.
Defined.

(** X3: with a filter whose clause is not empty, the dictionary returned
    by [get_filtered_current_state_ids] is the room's current state as the
    rows give it, restricted to the keys the clause selects: a selected key
    has the event id of its last row, any other key is absent. *)
Theorem filtered_lookup_restricts_current_state room_id f s :
  fst (make_sql_filter_clause f) ≠ [] →
  ∃ m, fst (get_filtered_current_state_ids room_id f s) = Returns m
    ∧ ∀ key, m !! key
             = if key_selected (fst (make_sql_filter_clause f))
                    (snd (make_sql_filter_clause f)) key
               then last_row_event_id (db s) room_id key
               else None.
Proof.
  intros Hne. unfold get_filtered_current_state_ids.
  destruct (make_sql_filter_clause f) as [clause args]. simpl in Hne.
  destruct clause as [|c clause]; [done|]. simpl.
  eexists. split; [reflexivity|]. intros key.
  rewrite (selected_rows_lookup _
             {| sql_room_id := room_id; sql_and := Some (c :: clause);
                sql_args := args |}); [done|].
  by intros m [? ? ? ?].
Qed.

Lemma filtered_lookup_restricts_current_state_witness :
  let f := StateFilter_from_types [("m.room.member", None)] in
  ∃ m, fst (get_filtered_current_state_ids "!R" f example_store) = Returns m
    ∧ ∀ key, m !! key
             = if key_selected (fst (make_sql_filter_clause f))
                    (snd (make_sql_filter_clause f)) key
               then last_row_event_id (db example_store) "!R" key
               else None.
Proof.
  apply (filtered_lookup_restricts_current_state "!R"
           (StateFilter_from_types [("m.room.member", None)]) example_store).
  discriminate.
Defined.

(** ** The create event and the canonical alias *)

(** X4: [get_create_event_for_room] returns an event exactly when the
    room's current state binds (create-type, "") to a non-empty event id
    and the event store holds an event under that id; the event returned
    is that one. *)
Theorem get_create_event_for_room_returns_iff room_id s ev s1 :
  get_create_event_for_room room_id s = (Returns ev, s1)
  ↔ ∃ state_ids create_id,
      get_current_state_ids room_id s = (Returns state_ids, s1)
      ∧ state_ids !! (EventTypes.Create, "") = Some create_id
      ∧ create_id ≠ ""
      ∧ events (db s1) !! create_id = Some ev.
Proof.
  split.
  - unfold get_create_event_for_room, bind.
    destruct (get_current_state_ids_returns room_id s) as (m & s2 & Hget).
    rewrite Hget.
    destruct (m !! (EventTypes.Create, "")) as [create_id|] eqn:Hid; [|done].
    unfold py_bool_str. case_bool_decide as Hempty; [done|]. simpl.
    unfold get_event.
    destruct (events (db s2) !! create_id) as [ev'|] eqn:Hev; [|done].
    intros [= <- <-]. by exists m, create_id.
  - intros (state_ids & create_id & Hget & Hid & Hne & Hev).
    by apply (get_create_event_for_room_returns _ _ state_ids _ create_id).
Qed.

(** X5: an empty event id under (create-type, "") counts as no create
    event: the three lookups raise [NotFoundError] for the room. *)
Theorem empty_create_id_raises_not_found room_id s state_ids s1 :
  get_current_state_ids room_id s = (Returns state_ids, s1) →
  state_ids !! (EventTypes.Create, "") = Some "" →
  get_create_event_for_room room_id s
  = (Raises (NotFoundError ("Unknown room " +:+ room_id)), s1)
  ∧ get_room_version room_id s
    = (Raises (NotFoundError ("Unknown room " +:+ room_id)), s1)
  ∧ get_room_predecessor room_id s
    = (Raises (NotFoundError ("Unknown room " +:+ room_id)), s1).
Proof.
  intros Hget Hid.
  assert (Hc : get_create_event_for_room room_id s
               = (Raises (NotFoundError ("Unknown room " +:+ room_id)), s1)).
  { unfold get_create_event_for_room, bind. by rewrite Hget, Hid. }
  unfold get_room_version, get_room_predecessor, bind. by rewrite Hc.
Qed.

Lemma empty_create_id_raises_not_found_witness :
  let s := {| db := {| current_state_events :=
                         [{| cse_room_id := "!R"; cse_type := "m.room.create";
                             cse_state_key := ""; cse_event_id := "" |}];
                       event_to_state_groups := ∅;
                       events := ∅ |};
              cache_get_current_state_ids := ∅;
              cache_get_state_group_for_event := ∅;
              trace := [] |} in
  fst (get_create_event_for_room "!R" s)
  = Raises (NotFoundError "Unknown room !R").
Proof.
  intros s.
  destruct (empty_create_id_raises_not_found "!R" s
              (rows_to_dict [("m.room.create", "", "")])
              (snd (get_current_state_ids "!R" s))) as [H _].
  - vm_compute. reflexivity.
  - reflexivity.
  - rewrite H. reflexivity.
Defined.

(** X6: [get_room_predecessor] returns the [predecessor] field of the
    create event, [None] when the content has none; it and
    [get_room_version] raise exactly what [get_create_event_for_room]
    raises, and leave the store as that call leaves it. *)
Theorem get_room_predecessor_of_create_event room_id s :
  match get_create_event_for_room room_id s with
  | (Returns create_event, s1) =>
      get_room_predecessor room_id s
      = (Returns match content create_event !! "predecessor" with
                 | Some v => v
                 | None => JNull
                 end, s1)
  | (Raises e, s1) =>
      get_room_predecessor room_id s = (Raises e, s1)
      ∧ get_room_version room_id s = (Raises e, s1)
  end.
Proof.
  unfold get_room_predecessor, get_room_version, bind, ret, dict_get.
  destruct (get_create_event_for_room room_id s) as [[ev|e] s1]; [|done].
  by destruct (content ev !! "predecessor").
Qed.

(** X7: [get_canonical_alias_for_room] never raises. It returns the
    [canonical_alias] field of the event that the last row of the room
    under (canonical-alias-type, "") names, and [None] when there is no
    such row, the event id is empty, the event is not stored, or the
    content has no such field. It reads the rows itself: the database and
    the current-state cache are left as they were. *)
Theorem get_canonical_alias_for_room_value room_id s :
  ∃ s', get_canonical_alias_for_room room_id s
        = (Returns
             match last_row_event_id (db s) room_id
                     (EventTypes.CanonicalAlias, "") with
             | Some event_id =>
                 if bool_decide (event_id = "") then JNull
                 else match events (db s) !! event_id with
                      | Some event =>
                          default JNull (content event !! "canonical_alias")
                      | None => JNull
                      end
             | None => JNull
             end, s')
    ∧ db s' = db s
    ∧ cache_get_current_state_ids s' = cache_get_current_state_ids s.
Proof.
  unfold get_canonical_alias_for_room, bind, get_filtered_current_state_ids.
  cbn [make_sql_filter_clause map concat snd fst app].
  unfold runInteraction, _get_filtered_current_state_ids_txn, tbind, execute, tret.
  cbn [fst snd fold_left after_callbacks txn_db txn_log].
  rewrite (selected_rows_lookup _
             {| sql_room_id := room_id; sql_and := Some [ClauseTypeAndKey];
                sql_args := [EventTypes.CanonicalAlias; ""] |});
    [|by intros m [? ? ? ?]].
  cbn [sql_and sql_args sql_room_id].
  assert (Hsel : key_selected [ClauseTypeAndKey] [EventTypes.CanonicalAlias; ""]
                   (EventTypes.CanonicalAlias, "") = true) by reflexivity.
  rewrite Hsel.
  destruct (last_row_event_id (db s) room_id (EventTypes.CanonicalAlias, ""))
    as [event_id|]; [|by eexists].
  unfold py_bool_str. case_bool_decide as Hempty; simpl; [by eexists|].
  unfold get_event_allow_none, ret, dict_get. simpl.
  destruct (events (db s) !! event_id) as [event|]; by eexists.
Qed.

Lemma get_create_event_for_room_returns_iff_witness :
  fst (get_create_event_for_room "!R" example_store)
  = Returns {| event_id := "$E1";
               internal_metadata := {| outlier := false |};
               content := <["room_version" := JStr "5"]> ∅ |}.
Proof.
  pose proof (proj2 (get_create_event_for_room_returns_iff "!R" example_store
                       {| event_id := "$E1";
                          internal_metadata := {| outlier := false |};
                          content := <["room_version" := JStr "5"]> ∅ |}
                       (snd (get_current_state_ids "!R" example_store)))) as H.
  rewrite H; [reflexivity|].
  exists (rows_to_dict [("m.room.create", "", "$E1");
                        ("m.room.member", "@alice", "$E2")]), "$E1".
  split_and!; [vm_compute; reflexivity|reflexivity|discriminate|reflexivity].
Defined.

(** ** The assignments of a batch *)

Lemma fold_state_groups_keeps evs eid : ∀ sg,
  is_Some (sg !! eid) →
  is_Some (fold_left state_groups_step evs sg !! eid).
Proof.
  induction evs as [|[e c] evs IH]; intros sg Hs; [done|].
  cbn [fold_left]. apply IH.
  destruct (is_outlier (internal_metadata e)) eqn:Ho.
  - by rewrite state_groups_step_outlier.
  - rewrite state_groups_step_assign by done.
    rewrite lookup_insert. case_decide; [eauto|done].
Qed.

Lemma elem_of_assigned_event_ids evs eid :
  eid ∈ assigned_event_ids evs
  ↔ ∃ e c, (e, c) ∈ evs ∧ event_id e = eid
           ∧ is_outlier (internal_metadata e) = false.
Proof.
  unfold assigned_event_ids. rewrite list_elem_of_fmap. split.
  - intros ([e c] & -> & Hin). apply list_elem_of_filter in Hin as [Ho Hin].
    by exists e, c.
  - intros (e & c & Hin & <- & Ho). exists (e, c). split; [done|].
    by apply list_elem_of_filter.
Qed.

(** X8: the dictionary [state_groups] has an entry exactly for the event
    ids of the pairs that are not outliers, and each entry is the group of
    such a pair: [prev_group] if its context is rejected, [state_group]
    otherwise. *)
Theorem state_groups_of_non_outliers evs eid :
  (is_Some (build_state_groups evs !! eid) ↔ eid ∈ assigned_event_ids evs)
  ∧ ∀ g, build_state_groups evs !! eid = Some g →
         ∃ e c, (e, c) ∈ evs ∧ event_id e = eid
                ∧ is_outlier (internal_metadata e) = false
                ∧ g = if rejected c then prev_group c else state_group c.
Proof.
  split; [split|].
  - intros [g Hg]. apply fold_state_groups_origin in Hg as [Hg|Hg].
    + by rewrite lookup_empty in Hg.
    + apply elem_of_assigned_event_ids.
      destruct Hg as (e & c & ? & ? & ? & _). eauto.
  - intros (e & c & Hin & <- & Ho)%elem_of_assigned_event_ids.
    apply list_elem_of_split in Hin as (pre & post & ->).
    unfold build_state_groups. rewrite fold_left_app. cbn [fold_left].
    apply fold_state_groups_keeps.
    rewrite state_groups_step_assign by done. rewrite lookup_insert_eq. eauto.
  - intros g Hg. apply fold_state_groups_origin in Hg as [Hg|Hg].
    + by rewrite lookup_empty in Hg.
    + destruct Hg as (e & c & ? & ? & ? & <-). by exists e, c.
Qed.

(** X9: a batch that holds only outliers (an empty batch too) commits on
    every store, whatever is assigned already: no row is handed to the
    insert, and the database and the caches are left as they were. *)
Theorem outlier_only_batch_changes_nothing evs s :
  (∀ e c, (e, c) ∈ evs → is_outlier (internal_metadata e) = true) →
  insert_values (build_state_groups evs) = []
  ∧ ∃ s', storeEventStateAssignments evs s = (Returns tt, s')
          ∧ db s' = db s
          ∧ cache_get_state_group_for_event s'
            = cache_get_state_group_for_event s
          ∧ cache_get_current_state_ids s' = cache_get_current_state_ids s.
Proof.
  intros Hall.
  assert (Hsg : build_state_groups evs = ∅).
  { apply map_eq. intros k. unfold build_state_groups.
    rewrite fold_state_groups_untouched; [done|]. intros e c Hin _. eauto. }
  rewrite storeEventStateAssignments_unfold, Hsg.
  unfold insert_values. rewrite map_to_list_empty. simpl.
  split; [done|]. eexists. split; [reflexivity|]. simpl.
  by destruct (db s).
Qed.

Lemma outlier_only_batch_changes_nothing_witness :
  insert_values
    (build_state_groups [(example_event "$E1" true, example_context 9 8 false)])
  = []
  ∧ ∃ s', storeEventStateAssignments
            [(example_event "$E1" true, example_context 9 8 false)]
            example_store = (Returns tt, s')
          ∧ db s' = db example_store
          ∧ cache_get_state_group_for_event s'
            = cache_get_state_group_for_event example_store
          ∧ cache_get_current_state_ids s'
            = cache_get_current_state_ids example_store.
Proof.
  apply (outlier_only_batch_changes_nothing
           [(example_event "$E1" true, example_context 9 8 false)]
           example_store).
  intros e c Hin. apply list_elem_of_singleton in Hin.
  injection Hin as -> _. reflexivity.
Defined.

Lemma build_state_groups_distinct evs e c :
  NoDup (assigned_event_ids evs) →
  (e, c) ∈ evs →
  is_outlier (internal_metadata e) = false →
  build_state_groups evs !! event_id e = Some (assigned_group c).
Proof.
  intros Hnd Hin Ho. apply list_elem_of_split in Hin as (pre & post & ->).
  apply build_state_groups_last; [done|].
  intros e' c' Hin' Heq.
  destruct (is_outlier (internal_metadata e')) eqn:Ho'; [done|]. exfalso.
  unfold assigned_event_ids in Hnd.
  rewrite filter_app, filter_cons_True in Hnd by done.
  rewrite map_app in Hnd. apply NoDup_app in Hnd as (_ & _ & Hnd).
  cbn [map fst] in Hnd. apply NoDup_cons in Hnd as [Hnotin _].
  apply Hnotin. rewrite <- Heq.
  apply (elem_of_assigned_event_ids post). eauto.
Qed.

(** X10: when no two pairs that are not outliers share an event id, the
    assignments of a batch do not depend on the order of its pairs. *)
Theorem state_groups_order_independent evs evs' :
  evs ≡ₚ evs' →
  NoDup (assigned_event_ids evs) →
  build_state_groups evs = build_state_groups evs'.
Proof.
  intros Hperm Hnd.
  assert (Hnd' : NoDup (assigned_event_ids evs')).
  { unfold assigned_event_ids in *. by rewrite <- Hperm. }
  assert (Hstep : ∀ l l' : list (EventBase * EventContext),
            l ≡ₚ l' → NoDup (assigned_event_ids l') →
            ∀ k g, build_state_groups l !! k = Some g →
                   build_state_groups l' !! k = Some g).
  { intros l l' Hp Hn k g Hg.
    apply fold_state_groups_origin in Hg as [Hg|Hg].
    - by rewrite lookup_empty in Hg.
    - destruct Hg as (e & c & Hin & <- & Ho & <-).
      apply build_state_groups_distinct; [done| |done]. by rewrite <- Hp. }
  apply map_eq. intros k. apply option_eq. intros g. split.
  - by apply Hstep.
  - by apply Hstep.
Qed.

Lemma state_groups_order_independent_witness :
  build_state_groups
    [(example_event "$A" false, example_context 5 4 false);
     (example_event "$B" false, example_context 7 5 true)]
  = build_state_groups
      [(example_event "$B" false, example_context 7 5 true);
       (example_event "$A" false, example_context 5 4 false)].
Proof.
  apply state_groups_order_independent.
  - apply perm_swap.
  - change (NoDup ["$A"; "$B"]).
    apply NoDup_cons. split; [|apply NoDup_singleton].
    intros Hin. apply list_elem_of_singleton in Hin. discriminate Hin.
Defined.

(** ** Write, then read *)

(** X11: after a call of [storeEventStateAssignments] has committed, the
    batched lookup of events the call assigned returns exactly their new
    groups, and it is answered from the prefilled cache: the store, and
    with it the count of storage reads, is left as it was. *)
Theorem batched_lookup_after_store evs s s' (event_ids : list string) :
  storeEventStateAssignments evs s = (Returns tt, s') →
  (∀ e, e ∈ event_ids → is_Some (build_state_groups evs !! e)) →
  ∃ m, _get_state_group_for_events event_ids s' = (Returns m, s')
    ∧ ∀ e, m !! e = if bool_decide (e ∈ event_ids)
                    then build_state_groups evs !! e else None.
Proof.
  intros Hrun Hreq.
  apply storeEventStateAssignments_commit in Hrun as (_ & _ & Hcache & _).
  unfold _get_state_group_for_events, cachedList.
  assert (Hmiss : filter (λ e, cache_get_state_group_for_event s' !! e = None)
                    event_ids = []).
  { apply elem_of_nil_inv. intros e Hin.
    apply list_elem_of_filter in Hin as [Hnone Hin].
    destruct (Hreq e Hin) as [g Hg]. rewrite Hcache, Hg in Hnone. done. }
  rewrite Hmiss. eexists. split; [reflexivity|].
  intros e. rewrite hits_lookup. case_bool_decide as Hin; [|done].
  destruct (Hreq e Hin) as [g Hg]. by rewrite Hcache, Hg.
Qed.

Lemma batched_lookup_after_store_witness :
  let evs := [(example_event "$A" false, example_context 5 4 false);
              (example_event "$B" false, example_context 7 5 true)] in
  let s' := snd (storeEventStateAssignments evs example_store) in
  ∃ m, _get_state_group_for_events ["$B"; "$A"] s' = (Returns m, s')
    ∧ ∀ e, m !! e = if bool_decide (e ∈ ["$B"; "$A"])
                    then build_state_groups evs !! e else None.
Proof.
  intros evs s'.
  apply (batched_lookup_after_store evs example_store s' ["$B"; "$A"]).
  - vm_compute. reflexivity.
  - intros e Hin. apply elem_of_cons in Hin as [->|Hin].
    + exists 5%Z. vm_compute. reflexivity.
    + apply list_elem_of_singleton in Hin as ->.
      exists 5%Z. vm_compute. reflexivity.
Defined.

(** ** The length of a state-group delta *)

(** X12: the length of a [_GetStateGroupDelta] is the number of entries of
    [delta_ids], whatever [prev_group] is; it is 0 exactly when
    [delta_ids] is [None] or has no entry, and taking it never fails on
    [None]. *)
Theorem GetStateGroupDelta_len (self : _GetStateGroupDelta.t) :
  _GetStateGroupDelta.__len__ self
  = from_option size 0%nat (_GetStateGroupDelta.delta_ids self)
  ∧ (_GetStateGroupDelta.__len__ self = 0%nat
     ↔ ∀ key, _GetStateGroupDelta.delta_ids self ≫= (.!! key) = None).
Proof.
  unfold _GetStateGroupDelta.__len__.
  destruct (_GetStateGroupDelta.delta_ids self) as [d|]; simpl; [|done].
  assert (Hlen : (if bool_decide (size d ≠ 0%nat) then size d else 0%nat)
                 = size d).
  { case_bool_decide as Hs; [done|]. lia. }
  rewrite Hlen. split; [done|].
  rewrite map_size_empty_iff. split.
  - intros ->. intros key. apply lookup_empty.
  - intros Hnone. by apply map_empty.
Qed.

(** ** What the methods leave alone *)

(** X13: [storeEventStateAssignments] never changes or removes an
    assignment that exists already, whether it commits or raises, and it
    never touches the other tables. *)
Theorem existing_assignments_preserved evs s eid g :
  event_to_state_groups (db s) !! eid = Some g →
  let s' := snd (storeEventStateAssignments evs s) in
  event_to_state_groups (db s') !! eid = Some g
  ∧ current_state_events (db s') = current_state_events (db s)
  ∧ events (db s') = events (db s).
Proof.
  intros Hg. rewrite storeEventStateAssignments_unfold. cbv zeta.
  destruct (insert_rows _ _) as [tbl|] eqn:Hins; simpl; [|done].
  split; [|done].
  apply insert_rows_Some in Hins as [-> Hfresh].
  rewrite insert_values_pairs, list_to_map_to_list.
  rewrite lookup_union_r; [done|].
  destruct (build_state_groups evs !! eid) as [g'|] eqn:Hsg; [|done].
  specialize (Hfresh {| row_state_group := g'; row_event_id := eid |}).
  simpl in Hfresh. rewrite Hfresh in Hg; [done|].
  unfold insert_values. apply list_elem_of_fmap. exists (eid, g').
  split; [done|]. by apply elem_of_map_to_list.
Qed.

Lemma existing_assignments_preserved_witness :
  event_to_state_groups
    (db (snd (storeEventStateAssignments
                [(example_event "$E2" false, example_context 9 8 false);
                 (example_event "$E3" false, example_context 3 2 false)]
                example_store))) !! "$E2" = Some 2%Z.
Proof.
  apply (existing_assignments_preserved
           [(example_event "$E2" false, example_context 9 8 false);
            (example_event "$E3" false, example_context 3 2 false)]
           example_store "$E2" 2%Z).
  reflexivity.
Defined.

(** X14: no lookup method writes: each of them leaves the database as it
    was, whatever it returns or raises. *)
Theorem lookups_leave_database room_id f event_id event_ids s :
  db (snd (get_current_state_ids room_id s)) = db s
  ∧ db (snd (get_filtered_current_state_ids room_id f s)) = db s
  ∧ db (snd (get_create_event_for_room room_id s)) = db s
  ∧ db (snd (get_room_version room_id s)) = db s
  ∧ db (snd (get_room_predecessor room_id s)) = db s
  ∧ db (snd (get_canonical_alias_for_room room_id s)) = db s
  ∧ db (snd (_get_state_group_for_event event_id s)) = db s
  ∧ db (snd (_get_state_group_for_events event_ids s)) = db s.
Proof.
  split_and!.
  - apply get_current_state_ids_store.
  - apply get_filtered_current_state_ids_store.
  - rewrite get_create_event_for_room_store. apply get_current_state_ids_store.
  - rewrite get_room_version_store. apply get_current_state_ids_store.
  - rewrite get_room_predecessor_store. apply get_current_state_ids_store.
  - unfold get_canonical_alias_for_room, bind.
    pose proof (get_filtered_current_state_ids_store room_id
                  (StateFilter_from_types [(EventTypes.CanonicalAlias, Some "")])
                  s) as [Hdb _].
    destruct (get_filtered_current_state_ids _ _ s) as [[state|e] s1];
      [|exact Hdb].
    destruct (state !! (EventTypes.CanonicalAlias, "")) as [alias_id|];
      [|exact Hdb].
    destruct (py_bool_str alias_id); [|exact Hdb].
    unfold get_event_allow_none.
    by destruct (events (db s1) !! alias_id).
  - unfold _get_state_group_for_event, cached.
    by destruct (cache_get_state_group_for_event s !! event_id).
  - unfold _get_state_group_for_events, cachedList.
    destruct (filter _ event_ids); [done|].
    by rewrite _get_state_group_for_events_orig_spec.
Qed.
